(** * voice_cloning_script.py: filename sanitizer, CSV line loader, variant runners

    A shallow embedding of [src/voice_cloning_script.py].

    - Python [str] values are sequences of Unicode code points: [list N].
    - [str.strip], [str.split] and the regex class [\s] all use CPython's
      [Py_UNICODE_ISSPACE]; its table is [isspace] below.
    - [str.lower] depends on the Unicode case tables, which are not part of
      the script: it is a [Variable] of the sections that need it.
    - The file system, the console and the synthesis engine are reached through
      a small state-and-exception monad whose state is the trace of external
      calls.  Opening and reading the CSV, creating a directory and calling
      the engine may each raise; what they do is asked of a [world].  Writing
      a line to the console is taken to return. *)

From Stdlib Require Import String Ascii DecimalString.
From Stdlib Require Import List NArith ZArith Bool Lia.
From Stdlib Require DecimalN.
Local Open Scope list_scope.
Import ListNotations.

(** ** Python strings *)

Definition codepoint := N.
Definition pystr := list codepoint.

Definition ord (a : ascii) : codepoint := N_of_ascii a.

(** A literal of the script, as its code points. *)
Definition lit (s : string) : pystr := map ord (list_ascii_of_string s).

Definition pystr_eqb (a b : pystr) : bool :=
  if list_eq_dec N.eq_dec a b then true else false.

(** Truth value of a [str] or a [list]: non-empty. *)
Definition truthy {A} (s : list A) : bool :=
  match s with [] => false | _ :: _ => true end.

(** [a or b] on strings. *)
Definition str_or (a b : pystr) : pystr := if truthy a then a else b.

Definition in_range (lo hi c : codepoint) : bool := ((lo <=? c) && (c <=? hi))%N.

(** [Py_UNICODE_ISSPACE]. *)
Definition isspace (c : codepoint) : bool :=
  in_range 0x09%N 0x0D%N c || in_range 0x1C%N 0x20%N c
  || (c =? 0x85)%N || (c =? 0xA0)%N || (c =? 0x1680)%N
  || in_range 0x2000%N 0x200A%N c
  || (c =? 0x2028)%N || (c =? 0x2029)%N || (c =? 0x202F)%N
  || (c =? 0x205F)%N || (c =? 0x3000)%N.

Fixpoint lstrip (s : pystr) : pystr :=
  match s with
  | [] => []
  | c :: t => if isspace c then lstrip t else s
  end.

Definition rstrip (s : pystr) : pystr := rev (lstrip (rev s)).

(** [s.strip()] *)
Definition strip (s : pystr) : pystr := rstrip (lstrip s).

(** [s.split()]: the maximal runs of non-whitespace, in order.
    [cur] is the word being read. *)
Fixpoint split_from (cur : pystr) (s : pystr) : list pystr :=
  match s with
  | [] => if truthy cur then [cur] else []
  | c :: t =>
      if isspace c
      then (if truthy cur then cur :: split_from [] t else split_from [] t)
      else split_from (cur ++ [c]) t
  end.

Definition split (s : pystr) : list pystr := split_from [] s.

(** [sep.join(parts)] *)
Fixpoint join (sep : pystr) (parts : list pystr) : pystr :=
  match parts with
  | [] => []
  | [p] => p
  | p :: rest => p ++ sep ++ join sep rest
  end.

(** [s[:n]] for a Python integer [n]: a negative [n] counts from the end. *)
Definition slice_to (n : Z) (s : pystr) : pystr :=
  if (0 <=? n)%Z then firstn (Z.to_nat n) s
  else firstn (length s - Z.to_nat (- n)) s.

(** [str(n)] for a non-negative integer. *)
Definition str_of_N (n : N) : pystr := lit (NilEmpty.string_of_uint (N.to_uint n)).

(** [f"{n:03d}"]: decimal, padded with zeros on the left to width 3. *)
Definition fmt_03d (n : N) : pystr :=
  let d := str_of_N n in repeat (ord "0") (3 - length d) ++ d.

(** ** The filename sanitizer *)

(** [re.sub(r"\s+", "_", name)]: every maximal run of whitespace becomes one
    underscore.  [in_run] tells that the previous character belonged to the
    run being replaced. *)
Fixpoint sub_spaces_from (in_run : bool) (s : pystr) : pystr :=
  match s with
  | [] => []
  | c :: t =>
      if isspace c
      then (if in_run then sub_spaces_from true t
            else ord "_" :: sub_spaces_from true t)
      else c :: sub_spaces_from false t
  end.

Definition sub_spaces (s : pystr) : pystr := sub_spaces_from false s.

(** The character class [[A-Za-z0-9._-]]. *)
Definition is_safe (c : codepoint) : bool :=
  in_range (ord "A") (ord "Z") c || in_range (ord "a") (ord "z") c
  || in_range (ord "0") (ord "9") c
  || (c =? ord ".")%N || (c =? ord "_")%N || (c =? ord "-")%N.

(** [re.sub(r"[^A-Za-z0-9._-]", "", name)] *)
Definition sub_unsafe (s : pystr) : pystr := filter is_safe s.

Definition DEFAULT_MODEL : pystr := lit "tts_models/multilingual/multi-dataset/your_tts".
Definition DEFAULT_OUTPUT_DIR : pystr := lit "outputs".
Definition DEFAULT_LANGUAGE : pystr := lit "en".
Definition DEFAULT_ADVANCED_LANGS : pystr := lit "en,fr-fr,pt-br".

Definition default_max_len : Z := 100.

Definition sanitize_filename (name : pystr) (max_len : Z) : pystr :=
  let name := strip name in
  let name := sub_spaces name in
  let name := sub_unsafe name in
  if truthy name then slice_to max_len name else lit "utt".

(** The sanitizer as the specification words it: trim, collapse, strip,
    truncate, and only then fall back when the result is empty. *)
Definition sanitize_spec (name : pystr) (max_len : Z) : pystr :=
  let r := slice_to max_len (sub_unsafe (sub_spaces (strip name))) in
  if truthy r then r else lit "utt".

(** The characters [A-Za-z0-9._-], one by one. *)
Definition alphabet : pystr :=
  lit "ABCDEFGHIJKLMNOPQRSTUVWXYZabcdefghijklmnopqrstuvwxyz0123456789._-".

(** [^[A-Za-z0-9._-]{0,n}$] *)
Definition matches_safe (n : nat) (s : pystr) : Prop :=
  Forall (fun c => In c alphabet) s /\ length s <= n.

(** ** Paths, exceptions, external calls *)

(** [pathlib.Path] values, kept as the expressions that build them. *)
Inductive path :=
| Path (s : pystr)                 (* Path(s) *)
| Join (p : path) (name : pystr)   (* p / name *)
| Parent (p : path).               (* p.parent *)

(** An f-string with its interpolated paths left as paths. *)
Inductive piece := Text (s : pystr) | PathStr (p : path).
Definition fstring := list piece.

Inductive value_error := NoHeaderRow | NoTextLines.

Inductive exn :=
| FileNotFoundError (p : path)
| ValueError (why : value_error)
| StopIteration
| AttributeError
| SystemExit (code : Z)
| EngineError
| IsADirectoryError
| NotADirectoryError
| FileExistsError
| PermissionError
| UnicodeDecodeError
| CsvError.

Inductive result (A : Type) :=
| Ok (a : A)
| Raise (e : exn).
Arguments Ok {A} a.
Arguments Raise {A} e.

(** The handle [TTS(...)] returns. *)
Record TTS := { tts_model_name : pystr; tts_progress_bar : bool; tts_gpu : bool }.

(** Calls that leave the script. *)
Inductive call :=
| Mkdir (p : path)                    (* p.mkdir(parents=True, exist_ok=True) *)
| Print (to_stderr : bool) (line : fstring)
| TTS_new (handle : TTS)              (* TTS(model_name=, progress_bar=, gpu=) *)
| TTS_to_file (tts : TTS) (text : pystr) (speaker_wav : path)
              (language : option pystr) (file_path : path).

Definition trace := list call.

(** What the script finds outside itself, after the calls made so far.
    - [path_exists]: the answer of [Path.exists()].
    - [csv_open]: the exception [csv_path.open(...)] raises, if it raises
      (a directory, a file that may not be read).
    - [csv_reader]: the rows [csv.reader] yields for the file, and
      [csv_failure]: the exception that ends the reading after these rows, if
      one does (bytes that are not UTF-8, a line the parser refuses).
    - [mkdir_error]: the exception [p.mkdir(parents=True, exist_ok=True)]
      raises, if it raises (the path or a parent is a file, no permission).
    - [engine_ok]: whether a call into the engine returns; otherwise it
      raises. *)
Record world := {
  path_exists : trace -> path -> bool;
  csv_open : trace -> path -> option exn;
  csv_reader : trace -> path -> list (list pystr);
  csv_failure : trace -> path -> option exn;
  mkdir_error : trace -> path -> option exn;
  engine_ok : trace -> call -> bool
}.

(** State (the trace) and exceptions. *)
Definition M (A : Type) : Type := trace -> trace * result A.

Definition ret {A} (a : A) : M A := fun t => (t, Ok a).
Definition raise {A} (e : exn) : M A := fun t => (t, Raise e).
Definition bind {A B} (m : M A) (k : A -> M B) : M B :=
  fun t => match m t with
           | (t', Ok a) => k a t'
           | (t', Raise e) => (t', Raise e)
           end.
Definition lift {A} (r : result A) : M A := fun t => (t, r).

Notation "x <- m ;; k" := (bind m (fun x => k))
  (at level 61, m at next level, right associativity).
Notation "m ;;; k" := (bind m (fun _ => k))
  (at level 61, right associativity).

(** A line written to the console: the call is recorded and returns. *)
Definition perform (c : call) : M unit := fun t => (t ++ [c], Ok tt).

(** [for i, x in enumerate(xs, start=i): body(i, x)] *)
Fixpoint for_enumerate {A} (i : N) (xs : list A) (body : N -> A -> M unit) : M unit :=
  match xs with
  | [] => ret tt
  | x :: rest => body i x ;;; for_enumerate (N.succ i) rest body
  end.

(** [for x in xs: body(x)] *)
Fixpoint for_each {A} (xs : list A) (body : A -> M unit) : M unit :=
  match xs with
  | [] => ret tt
  | x :: rest => body x ;;; for_each rest body
  end.

(** ** csv.DictReader *)

(** A row as [DictReader] yields it: the cells under the field names, in
    insertion order, a missing cell being [None]; and, for a row longer than
    the header, the surplus cells under the key [None], inserted last. *)
Record csv_row := {
  named : list (pystr * option pystr);
  surplus : option (list pystr)
}.

(** [d[k] = v] on an insertion-ordered dict. *)
Fixpoint dict_set (d : list (pystr * option pystr)) (k : pystr) (v : option pystr) :=
  match d with
  | [] => [(k, v)]
  | (k', v') :: rest =>
      if pystr_eqb k' k then (k', v) :: rest else (k', v') :: dict_set rest k v
  end.

(** [dict(zip(fieldnames, row))] *)
Definition dict_zip (fieldnames row : list pystr) : list (pystr * option pystr) :=
  fold_left (fun d kv => dict_set d (fst kv) (Some (snd kv))) (combine fieldnames row) [].

(** The body of [DictReader.__next__] for one non-blank row. *)
Definition dict_row (fieldnames row : list pystr) : csv_row :=
  let d := dict_zip fieldnames row in
  let lf := length fieldnames in
  let lr := length row in
  if lf <? lr then {| named := d; surplus := Some (skipn lf row) |}
  else if lr <? lf
  then {| named := fold_left (fun d key => dict_set d key None) (skipn lr fieldnames) d;
          surplus := None |}
  else {| named := d; surplus := None |}.

Definition is_blank (row : list pystr) : bool :=
  match row with [] => true | _ :: _ => false end.

(** The rows a [DictReader] yields after the header: blank lines are skipped. *)
Definition dict_rows (fieldnames : list pystr) (lines : list (list pystr)) : list csv_row :=
  map (dict_row fieldnames) (filter (fun r => negb (is_blank r)) lines).

(** [row.keys()], the key [None] last. *)
Definition row_keys (r : csv_row) : list (option pystr) :=
  map (fun kv => Some (fst kv)) (named r)
  ++ match surplus r with Some _ => [None] | None => [] end.

(** [d.get(k)]; an absent key and a [None] value both give [None]. *)
Definition dict_get (d : list (pystr * option pystr)) (k : pystr) : option pystr :=
  match find (fun kv => pystr_eqb (fst kv) k) d with
  | Some (_, v) => v
  | None => None
  end.

(** [row.get(k)] for a string [k]. *)
Definition row_get (r : csv_row) (k : pystr) : option pystr := dict_get (named r) k.

(** [v or ""] *)
Definition or_empty (v : option pystr) : pystr :=
  match v with Some s => str_or s [] | None => [] end.

(** ** The CSV line loader *)

Record record := { id : pystr; text : pystr }.

Definition candidates : list pystr :=
  [lit "text"; lit "sentence"; lit "utterance"; lit "message"].

(** [c in xs] *)
Definition mem (c : pystr) (xs : list pystr) : bool := existsb (pystr_eqb c) xs.

Section Script.

Variable lower : pystr -> pystr.   (* str.lower *)

(** [next((c for c in candidates if c in fields_lower), None)] *)
Definition text_col_lower (fieldnames : list pystr) : option pystr :=
  let fields_lower := map lower fieldnames in
  find (fun c => mem c fields_lower) candidates.

(** [next(k for k in row.keys() if k.lower() == text_col_lower)] *)
Fixpoint next_key (keys : list (option pystr)) (target : pystr) : result pystr :=
  match keys with
  | [] => Raise StopIteration
  | None :: _ => Raise AttributeError
  | Some k :: rest => if pystr_eqb (lower k) target then Ok k else next_key rest target
  end.

Definition text_key (col : option pystr) (first_col : pystr) (row : csv_row) : result pystr :=
  match col with
  | Some c => if truthy c then next_key (row_keys row) c else Ok first_col
  | None => Ok first_col
  end.

(** [str(row.get("id") or idx)] *)
Definition row_id (row : csv_row) (idx : N) : pystr :=
  match row_get row (lit "id") with
  | Some v => if truthy v then v else str_of_N idx
  | None => str_of_N idx
  end.

(** The loop over the reader; [rows] is the list built so far. *)
Fixpoint collect (col : option pystr) (first_col : pystr) (idx : N)
         (reader : list csv_row) (rows : list record) : result (list record) :=
  match reader with
  | [] => Ok rows
  | row :: more =>
      match text_key col first_col row with
      | Raise e => Raise e
      | Ok key =>
          let text := strip (or_empty (row_get row key)) in
          if negb (truthy text)
          then collect col first_col (N.succ idx) more rows
          else
            let rid := row_id row idx in
            collect col first_col (N.succ idx) more (rows ++ [{| id := rid; text := text |}])
      end
  end.

(** The part of [load_csv_lines] under [with csv_path.open(...)], on the rows
    that [csv.reader] yields for the file. *)
Definition load_rows (lines : list (list pystr)) : result (list record) :=
  match lines with
  | [] => Raise (ValueError NoHeaderRow)          (* fieldnames is None *)
  | [] :: _ => Raise (ValueError NoHeaderRow)     (* fieldnames == [] *)
  | (first_col :: _) as fieldnames :: data =>
      match collect (text_col_lower fieldnames) first_col 1 (dict_rows fieldnames data) [] with
      | Raise e => Raise e
      | Ok rows => if negb (truthy rows) then Raise (ValueError NoTextLines) else Ok rows
      end
  end.

(** The same part when the reading may end in an exception after the rows
    [lines]: an exception on the very first row escapes from
    [reader.fieldnames]; a later one escapes from the loop, after the rows
    before it have been gone through. *)
Definition load_read (lines : list (list pystr)) (failure : option exn)
  : result (list record) :=
  match failure with
  | None => load_rows lines
  | Some e =>
      match lines with
      | [] => Raise e
      | [] :: _ => Raise (ValueError NoHeaderRow)
      | (first_col :: _) as fieldnames :: data =>
          match collect (text_col_lower fieldnames) first_col 1 (dict_rows fieldnames data) [] with
          | Raise e' => Raise e'
          | Ok _ => Raise e
          end
      end
  end.

Variable w : world.

Definition exists_ (p : path) : M bool := fun t => (t, Ok (path_exists w t p)).

(** A call into the synthesis engine: it returns or raises. *)
Definition engine (c : call) : M unit :=
  fun t => (t ++ [c], if engine_ok w t c then Ok tt else Raise EngineError).

(** [p.mkdir(parents=True, exist_ok=True)]: it returns or raises. *)
Definition mkdir (p : path) : M unit :=
  fun t => (t ++ [Mkdir p],
            match mkdir_error w t p with None => Ok tt | Some e => Raise e end).

Definition ensure_dir (p : path) : M unit := mkdir p.

Definition load_csv_lines (csv_path : path) : M (list record) :=
  found <- exists_ csv_path ;;
  if negb found then raise (FileNotFoundError csv_path)
  else fun t =>
    match csv_open w t csv_path with
    | Some e => (t, Raise e)
    | None => lift (load_read (csv_reader w t csv_path) (csv_failure w t csv_path)) t
    end.

Definition init_tts (model_name : pystr) (use_cpu : bool) : M TTS :=
  let tts := {| tts_model_name := model_name; tts_progress_bar := false;
                tts_gpu := negb use_cpu |} in
  engine (TTS_new tts) ;;; ret tts.

Definition synth_to_file (tts : TTS) (text : pystr) (speaker_wav out_path : path)
           (language : option pystr) : M unit :=
  mkdir (Parent out_path) ;;;
  if match language with Some l => truthy l | None => false end
  then engine (TTS_to_file tts text speaker_wav language out_path)
  else engine (TTS_to_file tts text speaker_wav None out_path).

Definition run_simple (tts : TTS) (speaker_wav out_dir : path) (language : pystr) : M unit :=
  let sentence := lit "Hello, this is a quick voice cloning test." in
  let out_path := Join out_dir (lit "simple_demo.wav") in
  synth_to_file tts sentence speaker_wav out_path (Some language) ;;;
  perform (Print false [Text (lit "[simple] Wrote: "); PathStr out_path]).

(** [sanitize_filename(" ".join(text.split()[:6]))] *)
Definition slug_of (text : pystr) : pystr :=
  sanitize_filename (join (lit " ") (firstn 6 (split text))) default_max_len.

Definition detailed_fname (i : N) (row : record) : pystr :=
  let rid := sanitize_filename (id row) default_max_len in
  let slug := slug_of (text row) in
  if truthy slug
  then fmt_03d i ++ lit "_" ++ rid ++ lit "_" ++ slug ++ lit ".wav"
  else fmt_03d i ++ lit "_" ++ rid ++ lit ".wav".

Definition progress (tag : list piece) (i : N) (total : nat) (out_path : path) : fstring :=
  tag ++ [Text (str_of_N i); Text (lit "/"); Text (str_of_N (N.of_nat total));
          Text (lit " -> "); PathStr out_path].

Definition run_detailed (tts : TTS) (speaker_wav csv_path out_dir : path)
           (language : pystr) : M unit :=
  lines <- load_csv_lines csv_path ;;
  ensure_dir out_dir ;;;
  for_enumerate 1 lines (fun i row =>
    let fname := detailed_fname i row in
    let out_path := Join out_dir fname in
    synth_to_file tts (text row) speaker_wav out_path (Some language) ;;;
    perform (Print false (progress [Text (lit "[detailed] ")] i (length lines) out_path))).

Definition advanced_fname (i : N) (row : record) (lang : pystr) : pystr :=
  let rid := sanitize_filename (id row) default_max_len in
  let short_slug := slug_of (text row) in
  fmt_03d i ++ lit "_" ++ rid ++ lit "_" ++ str_or short_slug (lit "utt")
  ++ lit "." ++ lang ++ lit ".wav".

Definition run_advanced (tts : TTS) (speaker_wav csv_path out_dir : path)
           (languages : list pystr) : M unit :=
  lines <- load_csv_lines csv_path ;;
  for_enumerate 1 lines (fun i row =>
    for_each languages (fun lang =>
      let subdir := Join out_dir lang in
      ensure_dir subdir ;;;
      let fname := advanced_fname i row lang in
      let out_path := Join subdir fname in
      synth_to_file tts (text row) speaker_wav out_path (Some lang) ;;;
      perform (Print false
        (progress [Text (lit "[advanced:"); Text lang; Text (lit "] ")]
                  i (length lines) out_path)))).

(** ** Command line and [main] *)

Inductive variant_choice := Simple | Detailed | Advanced.

(** The namespace [parse_args] returns. *)
Record args := {
  variant : variant_choice;
  speaker_wav : path;
  input_csv : path;
  outdir : path;
  model : pystr;
  language : pystr;
  langs : pystr;
  cpu : bool
}.

(** [s.split(sep)] for a one-character separator. *)
Fixpoint split_on_from (sep : codepoint) (cur s : pystr) : list pystr :=
  match s with
  | [] => [cur]
  | c :: rest =>
      if (c =? sep)%N then cur :: split_on_from sep [] rest
      else split_on_from sep (cur ++ [c]) rest
  end.

Definition split_on (sep : codepoint) (s : pystr) : list pystr := split_on_from sep [] s.

(** [[l.strip() for l in langs.split(",") if l.strip()]] *)
Definition parse_langs (langs : pystr) : list pystr :=
  map strip (filter (fun l => truthy (strip l)) (split_on (ord ",") langs)).

(** [True if args.cpu else True] *)
Definition use_cpu_of (a : args) : bool := if cpu a then true else true.

Definition main (a : args) : M unit :=
  found <- exists_ (speaker_wav a) ;;
  if negb found then
    perform (Print true [Text (lit "ERROR: speaker wav not found: "); PathStr (speaker_wav a)]) ;;;
    raise (SystemExit 1)
  else
    perform (Print false [Text (lit "Loading model: "); Text (model a); Text (lit " (CPU=");
                          Text (if cpu a then lit "yes" else lit "auto"); Text (lit ")")]) ;;;
    tts <- init_tts (model a) (use_cpu_of a) ;;
    ensure_dir (outdir a) ;;;
    match variant a with
    | Simple => run_simple tts (speaker_wav a) (outdir a) (language a)
    | Detailed => run_detailed tts (speaker_wav a) (input_csv a) (outdir a) (language a)
    | Advanced =>
        let langs := parse_langs (langs a) in
        if negb (truthy langs) then
          perform (Print true [Text (lit "ERROR: no languages provided for advanced variant.")]) ;;;
          raise (SystemExit 1)
        else run_advanced tts (speaker_wav a) (input_csv a) (outdir a) langs
    end ;;;
    perform (Print false [Text (lit "Done. See the `outputs` folder for results.")]).

End Script.

(** ** Vocabulary of the statements *)

(** Every character is in the class [[A-Za-z0-9._-]]. *)
Definition safe_str (s : pystr) : Prop := Forall (fun c => is_safe c = true) s.

(** [list(enumerate(xs, start=i))] *)
Fixpoint enumerate {A} (i : N) (xs : list A) : list (N * A) :=
  match xs with
  | [] => []
  | x :: rest => (i, x) :: enumerate (N.succ i) rest
  end.

(** The cell of a row under the last column named [k], when the row reaches
    that column. *)
Fixpoint cell_of (fieldnames row : list pystr) (k : pystr) : option pystr :=
  match fieldnames, row with
  | f :: fs, c :: cs =>
      match cell_of fs cs k with
      | Some v => Some v
      | None => if pystr_eqb f k then Some c else None
      end
  | _, _ => None
  end.

(** ASCII lower-casing of one code point. *)
Definition ascii_lower (c : codepoint) : codepoint :=
  if in_range (ord "A") (ord "Z") c then (c + 32)%N else c.


Section LoaderVocabulary.

Variable lower : pystr -> pystr.

(** The header name whose cells are the texts: the first name that
    lower-cases to the chosen candidate, or the first name of the header. *)
Definition text_column (fieldnames : list pystr) : option pystr :=
  match text_col_lower lower fieldnames with
  | Some c => find (fun k => pystr_eqb (lower k) c) fieldnames
  | None => hd_error fieldnames
  end.

(** The trimmed cell of a row under the text column. *)
Definition row_text (key : pystr) (row : csv_row) : pystr :=
  strip (or_empty (row_get row key)).

Definition kept (key : pystr) (p : N * csv_row) : bool := truthy (row_text key (snd p)).

Definition row_record (key : pystr) (p : N * csv_row) : record :=
  {| id := row_id (snd p) (fst p); text := row_text key (snd p) |}.

(** The records of the rows with a non-empty text, each with its 1-based
    position among the rows the reader yields. *)
Definition records (key : pystr) (reader : list csv_row) : list record :=
  map (row_record key) (filter (kept key) (enumerate 1 reader)).

End LoaderVocabulary.

(** The data lines the reader turns into rows, each with the number
    [enumerate(reader, start=1)] gives it: a blank line is skipped and does
    not count, a row that is dropped later does. *)
Definition numbered_rows (data : list (list pystr)) : list (N * list pystr) :=
  enumerate 1 (filter (fun cells => negb (is_blank cells)) data).

(** The numbered data lines whose cell in the text column has a text. *)
Definition kept_rows (header : list pystr) (key : pystr) (data : list (list pystr))
  : list (N * list pystr) :=
  filter (fun p => truthy (row_text key (dict_row header (snd p)))) (numbered_rows data).



(** The header and rows of the examples. *)
Definition csv_id_text : list (list pystr) :=
  [[lit "id"; lit "text"];
   [lit "1"; lit "Hello"]; [lit "2"; lit "  "]; [lit "3"; lit "World"]].

Definition csv_foo_bar : list (list pystr) :=
  [[lit "foo"; lit "bar"]; [lit "x"; lit "Hi there"]].


(** A world in which every path exists or none does, every file holds
    [lines], and nothing raises. *)
Definition quiet_world (present : bool) (lines : list (list pystr)) : world :=
  {| path_exists := fun _ _ => present;
     csv_open := fun _ _ => None;
     csv_reader := fun _ _ => lines;
     csv_failure := fun _ _ => None;
     mkdir_error := fun _ _ => None;
     engine_ok := fun _ _ => true |}.



(** A world in which every path exists as a file, so that no directory can
    be created. *)
Definition blocked_world : world :=
  {| path_exists := fun _ _ => true;
     csv_open := fun _ _ => None;
     csv_reader := fun _ _ => csv_id_text;
     csv_failure := fun _ _ => None;
     mkdir_error := fun _ _ => Some FileExistsError;
     engine_ok := fun _ _ => true |}.

(** The calls that synthesize, and the files they write. *)
Definition is_synthesis (c : call) : bool :=
  match c with TTS_to_file _ _ _ _ _ => true | _ => false end.

Definition jobs (t : trace) : list call := filter is_synthesis t.

Definition written (t : trace) : list path :=
  flat_map (fun c => match c with TTS_to_file _ _ _ _ p => [p] | _ => [] end) t.

Definition is_init (c : call) : bool :=
  match c with TTS_new _ => true | _ => false end.

Definition not_init (c : call) : bool := negb (is_init c).

(** The [language] argument that reaches the engine: an empty code is left
    out. *)
Definition truthy_lang (l : pystr) : option pystr := if truthy l then Some l else None.

(** [m] issues the calls of [plan], in order, and all of them when it
    returns; when it raises it has issued a prefix of them. *)
Definition performs {A} (m : M A) (plan : list call) : Prop :=
  forall t, exists done rest,
    fst (m t) = t ++ done
    /\ plan = done ++ rest
    /\ ((exists a, snd (m t) = Ok a) -> rest = []).

(** Every call [m] issues satisfies [ok]. *)
Definition emits (ok : call -> bool) {A} (m : M A) : Prop :=
  forall t, exists done, fst (m t) = t ++ done /\ forallb ok done = true.

(** The calls issued from the trace [t] on. *)
Definition since (t : trace) (t' : trace) : list call := skipn (length t) t'.

(** [m] returns, from every trace. *)
Definition succeeds {A} (m : M A) : Prop := forall t, exists a, snd (m t) = Ok a.

(** The engine never raises. *)
Definition engine_never_fails (w : world) : Prop := forall t c, engine_ok w t c = true.

(** No directory creation raises. *)
Definition mkdir_never_fails (w : world) : Prop := forall t p, mkdir_error w t p = None.

(** Neither the engine nor a directory creation raises. *)
Definition calls_never_fail (w : world) : Prop :=
  engine_never_fails w /\ mkdir_never_fails w.



(** A file with an [id] column in which some cells are empty, and one row
    without text. *)
Definition csv_some_ids : list (list pystr) :=
  [[lit "id"; lit "text"];
   [lit "a"; lit "Hello"]; [lit ""; lit "World"]; [lit "c"; lit "  "]; [];
   [lit ""; lit "Again"]; [lit "e"]].

(** A file without an [id] column, with a row without text and a blank
    line. *)
Definition csv_no_id : list (list pystr) :=
  [[lit "foo"; lit "bar"];
   [lit "x"; lit "one"]; [lit "  "; lit "two"]; []; [lit "z"; lit "three"]].

(** The calls of one round of the loop of [run_detailed]. *)
Definition detailed_calls (tts : TTS) (speaker_wav out_dir : path) (language : pystr)
           (total : nat) (p : N * record) : list call :=
  let out_path := Join out_dir (detailed_fname (fst p) (snd p)) in
  [ Mkdir (Parent out_path);
    TTS_to_file tts (text (snd p)) speaker_wav (truthy_lang language) out_path;
    Print false (progress [Text (lit "[detailed] ")] (fst p) total out_path) ].

(** The synthesis job of one record in [run_detailed]. *)
Definition detailed_job (tts : TTS) (speaker_wav out_dir : path) (language : pystr)
           (p : N * record) : call :=
  TTS_to_file tts (text (snd p)) speaker_wav (truthy_lang language)
              (Join out_dir (detailed_fname (fst p) (snd p))).

(** The calls of one round of the inner loop of [run_advanced]. *)
Definition advanced_calls (tts : TTS) (speaker_wav out_dir : path) (total : nat)
           (p : N * record) (lang : pystr) : list call :=
  let out_path := Join (Join out_dir lang) (advanced_fname (fst p) (snd p) lang) in
  [ Mkdir (Join out_dir lang);
    Mkdir (Parent out_path);
    TTS_to_file tts (text (snd p)) speaker_wav (truthy_lang lang) out_path;
    Print false (progress [Text (lit "[advanced:"); Text lang; Text (lit "] ")]
                          (fst p) total out_path) ].

(** The synthesis job of one record and one language in [run_advanced]. *)
Definition advanced_job (tts : TTS) (speaker_wav out_dir : path)
           (p : N * record) (lang : pystr) : call :=
  TTS_to_file tts (text (snd p)) speaker_wav (truthy_lang lang)
              (Join (Join out_dir lang) (advanced_fname (fst p) (snd p) lang)).

(** The jobs of [run_advanced]: record by record and, within a record,
    language by language. *)
Definition advanced_jobs (tts : TTS) (speaker_wav out_dir : path)
           (lines : list record) (languages : list pystr) : list call :=
  flat_map (fun p => map (advanced_job tts speaker_wav out_dir p) languages)
           (enumerate 1 lines).

(** The handle of the default model on the CPU, and the default paths. *)
Definition default_tts : TTS :=
  {| tts_model_name := DEFAULT_MODEL; tts_progress_bar := false; tts_gpu := false |}.
Definition default_speaker : path := Path (lit "sample_voice.wav").
Definition default_csv : path := Path (lit "input.csv").
Definition default_outdir : path := Path DEFAULT_OUTPUT_DIR.

(** The same arguments with another [--cpu]. *)
Definition with_cpu (b : bool) (a : args) : args :=
  {| variant := variant a; speaker_wav := speaker_wav a; input_csv := input_csv a;
     outdir := outdir a; model := model a; language := language a; langs := langs a;
     cpu := b |}.

(** What is left of a name before it is truncated. *)
Definition cleaned (name : pystr) : pystr := sub_unsafe (sub_spaces (strip name)).

Definition is_digit (c : codepoint) : bool := in_range (ord "0") (ord "9") c.

(** The number written by the leading decimal digits of a string, continuing
    from [acc]. *)
Fixpoint read_index (acc : N) (s : pystr) : N :=
  match s with
  | c :: rest => if is_digit c then read_index (acc * 10 + (c - ord "0")) rest else acc
  | [] => acc
  end.

(** The value of a decimal numeral, continuing from [acc]. *)
Fixpoint uint_value (d : Decimal.uint) (acc : N) : N :=
  match d with
  | Decimal.Nil => acc
  | Decimal.D0 l => uint_value l (acc * 10)
  | Decimal.D1 l => uint_value l (acc * 10 + 1)
  | Decimal.D2 l => uint_value l (acc * 10 + 2)
  | Decimal.D3 l => uint_value l (acc * 10 + 3)
  | Decimal.D4 l => uint_value l (acc * 10 + 4)
  | Decimal.D5 l => uint_value l (acc * 10 + 5)
  | Decimal.D6 l => uint_value l (acc * 10 + 6)
  | Decimal.D7 l => uint_value l (acc * 10 + 7)
  | Decimal.D8 l => uint_value l (acc * 10 + 8)
  | Decimal.D9 l => uint_value l (acc * 10 + 9)
  end.

(** A word: not empty and free of whitespace. *)
Definition is_word (w : pystr) : Prop :=
  w <> [] /\ forallb (fun c => negb (isspace c)) w = true.

(** A language code as [main] hands it to the advanced runner. *)
Definition clean_lang (l : pystr) : Prop :=
  l <> [] /\ strip l = l /\ ~ In (ord ",") l.

Definition TTS_eqb (a b : TTS) : bool :=
  pystr_eqb (tts_model_name a) (tts_model_name b)
  && Bool.eqb (tts_progress_bar a) (tts_progress_bar b)
  && Bool.eqb (tts_gpu a) (tts_gpu b).

(** The call goes to the engine handle [h], or does not concern a handle. *)
Definition uses_handle (h : TTS) (c : call) : bool :=
  match c with
  | TTS_new h' => TTS_eqb h' h
  | TTS_to_file h' _ _ _ _ => TTS_eqb h' h
  | _ => true
  end.

(** The handle [main] creates for the arguments [a]. *)
Definition handle_of (a : args) : TTS :=
  {| tts_model_name := model a; tts_progress_bar := false; tts_gpu := false |}.

(** The line [main] prints before it loads the model. *)
Definition loading_line (a : args) : call :=
  Print false [Text (lit "Loading model: "); Text (model a); Text (lit " (CPU=");
               Text (if cpu a then lit "yes" else lit "auto"); Text (lit ")")].

Definition done_line : call :=
  Print false [Text (lit "Done. See the `outputs` folder for results.")].

(** The default arguments of [parse_args] with a given variant. *)
Definition default_args (v : variant_choice) : args :=
  {| variant := v; speaker_wav := default_speaker; input_csv := default_csv;
     outdir := default_outdir; model := DEFAULT_MODEL; language := DEFAULT_LANGUAGE;
     langs := DEFAULT_ADVANCED_LANGS; cpu := false |}.

(** A world in which the speaker file exists, the CSV file does not, and
    nothing raises. *)
Definition world_without_csv : world :=
  {| path_exists := fun _ p => match p with
                               | Path s => pystr_eqb s (lit "sample_voice.wav")
                               | _ => false
                               end;
     csv_open := fun _ _ => None;
     csv_reader := fun _ _ => [];
     csv_failure := fun _ _ => None;
     mkdir_error := fun _ _ => None;
     engine_ok := fun _ _ => true |}.

(** A world in which every path exists and the engine always raises. *)
Definition broken_engine_world : world :=
  {| path_exists := fun _ _ => true;
     csv_open := fun _ _ => None;
     csv_reader := fun _ _ => csv_id_text;
     csv_failure := fun _ _ => None;
     mkdir_error := fun _ _ => None;
     engine_ok := fun _ _ => false |}.

(** The lines [main] writes to the standard error stream. *)
Definition speaker_error_line (a : args) : call :=
  Print true [Text (lit "ERROR: speaker wav not found: "); PathStr (speaker_wav a)].

Definition no_langs_line : call :=
  Print true [Text (lit "ERROR: no languages provided for advanced variant.")].

(** What [main] does once the engine is loaded, with the handle [tts]. *)
Definition main_body (lower : pystr -> pystr) (w : world) (a : args) (tts : TTS) : M unit :=
  ensure_dir w (outdir a) ;;;
  match variant a with
  | Simple => run_simple w tts (speaker_wav a) (outdir a) (language a)
  | Detailed => run_detailed lower w tts (speaker_wav a) (input_csv a) (outdir a) (language a)
  | Advanced =>
      if negb (truthy (parse_langs (langs a))) then
        perform no_langs_line ;;; raise (SystemExit 1)
      else run_advanced lower w tts (speaker_wav a) (input_csv a) (outdir a)
                        (parse_langs (langs a))
  end ;;;
  perform done_line.






(** * Facts *)

(** ** The script on small inputs *)

Example sanitize_hello :
  sanitize_filename (lit "  Hello,   wide world! ") default_max_len = lit "Hello_wide_world".
Proof. vm_compute. reflexivity. Qed.

Example sanitize_symbols : sanitize_filename (lit " ?! ") default_max_len = lit "utt".
Proof. vm_compute. reflexivity. Qed.

(** With a maximum length of zero the code returns the empty string, where
    truncating first and falling back afterwards would give ["utt"]. *)
Example sanitize_zero_length :
  sanitize_filename (lit "a") 0 = [] /\ sanitize_spec (lit "a") 0 = lit "utt".
Proof. split; reflexivity. Qed.

Example fmt_03d_2 : fmt_03d 2 = lit "002" /\ fmt_03d 1234 = lit "1234".
Proof. split; reflexivity. Qed.

Example split_join :
  join (lit " ") (firstn 6 (split (lit " a  b c d e f g h "))) = lit "a b c d e f".
Proof. vm_compute. reflexivity. Qed.

Example parse_langs_default :
  parse_langs DEFAULT_ADVANCED_LANGS = [lit "en"; lit "fr-fr"; lit "pt-br"]
  /\ parse_langs (lit " en ,, fr-fr ,") = [lit "en"; lit "fr-fr"].
Proof. split; vm_compute; reflexivity. Qed.

(** A short row leaves the missing cells [None]; a long one keeps the surplus
    under the key [None]. *)
Example dict_row_short :
  dict_row [lit "id"; lit "text"] [lit "4"]
  = {| named := [(lit "id", Some (lit "4")); (lit "text", None)]; surplus := None |}.
Proof. reflexivity. Qed.

Example dict_row_long :
  dict_row [lit "text"] [lit "Hi"; lit "there"]
  = {| named := [(lit "text", Some (lit "Hi"))]; surplus := Some [lit "there"] |}.
Proof. reflexivity. Qed.

(** ** Characters *)

Ltac bool_to_prop :=
  repeat match goal with
         | H : _ || _ = true |- _ => apply orb_true_iff in H
         | H : _ && _ = true |- _ => apply andb_true_iff in H
         | H : (_ <=? _)%N = true |- _ => apply N.leb_le in H
         | H : (_ =? _)%N = true |- _ => apply N.eqb_eq in H
         | H : _ \/ _ |- _ => destruct H
         | H : _ /\ _ |- _ => destruct H
         end.

Lemma is_safe_bounds (c : codepoint) : is_safe c = true -> (45 <= c <= 122)%N.
Proof.
  unfold is_safe, in_range. intros H.
  change (ord "A") with 65%N in H. change (ord "Z") with 90%N in H.
  change (ord "a") with 97%N in H. change (ord "z") with 122%N in H.
  change (ord "0") with 48%N in H. change (ord "9") with 57%N in H.
  change (ord ".") with 46%N in H. change (ord "_") with 95%N in H.
  change (ord "-") with 45%N in H.
  bool_to_prop; lia.
Qed.

Lemma isspace_bounds (c : codepoint) : isspace c = true -> (c <= 32 \/ 133 <= c)%N.
Proof.
  unfold isspace, in_range. intros H. bool_to_prop; lia.
Qed.

Lemma safe_not_space (c : codepoint) : is_safe c = true -> isspace c = false.
Proof.
  intros Hs. destruct (isspace c) eqn:E; [|reflexivity].
  apply is_safe_bounds in Hs. apply isspace_bounds in E. lia.
Qed.

Lemma underscore_safe : is_safe (ord "_") = true.
Proof. reflexivity. Qed.

Lemma pystr_eqb_eq (a b : pystr) : pystr_eqb a b = true <-> a = b.
Proof.
  unfold pystr_eqb. destruct (list_eq_dec N.eq_dec a b); split; congruence.
Qed.

Lemma pystr_eqb_refl (a : pystr) : pystr_eqb a a = true.
Proof. now apply pystr_eqb_eq. Qed.

Lemma pystr_eqb_neq (a b : pystr) : pystr_eqb a b = false <-> a <> b.
Proof.
  unfold pystr_eqb. destruct (list_eq_dec N.eq_dec a b); split; congruence.
Qed.

Lemma truthy_true {A} (l : list A) : truthy l = true <-> l <> [].
Proof. destruct l; simpl; split; congruence. Qed.

Lemma truthy_false {A} (l : list A) : truthy l = false <-> l = [].
Proof. destruct l; simpl; split; congruence. Qed.

(** ** Trimming and splitting *)

Lemma lstrip_app (a b : pystr) :
  lstrip (a ++ b) = if truthy (lstrip a) then lstrip a ++ b else lstrip b.
Proof.
  induction a as [|c a IH]; simpl; [reflexivity|].
  destruct (isspace c); [exact IH | reflexivity].
Qed.

Lemma rstrip_cons (c : codepoint) (t : pystr) :
  rstrip (c :: t) = if isspace c && negb (truthy (rstrip t)) then [] else c :: rstrip t.
Proof.
  unfold rstrip. simpl rev. rewrite lstrip_app.
  destruct (lstrip (rev t)) as [|d u] eqn:E; simpl.
  - destruct (isspace c); reflexivity.
  - assert (T : truthy (rev u ++ [d]) = true) by (destruct (rev u); reflexivity).
    rewrite T, andb_false_r, rev_app_distr. reflexivity.
Qed.

Lemma rstrip_nil : rstrip [] = [].
Proof. reflexivity. Qed.

Lemma lstrip_all_space (s : pystr) : lstrip s = [] <-> forallb isspace s = true.
Proof.
  induction s as [|c s IH]; simpl; [tauto|].
  destruct (isspace c); simpl; [exact IH | split; discriminate].
Qed.

Lemma rstrip_all_space (s : pystr) : rstrip s = [] <-> forallb isspace s = true.
Proof.
  induction s as [|c s IH]; [simpl; tauto|].
  rewrite rstrip_cons. simpl forallb.
  destruct (isspace c); simpl.
  - destruct (rstrip s) as [|d u] eqn:E; simpl.
    + tauto.
    + split; [discriminate|]. intros H. apply IH in H. discriminate.
  - split; discriminate.
Qed.

Lemma lstrip_rstrip (s : pystr) : lstrip (rstrip s) = rstrip (lstrip s).
Proof.
  induction s as [|c s IH]; [reflexivity|].
  rewrite rstrip_cons. simpl lstrip.
  destruct (isspace c) eqn:E; simpl.
  - destruct (rstrip s) as [|d u] eqn:R; simpl.
    + rewrite <- IH. reflexivity.
    + rewrite E. exact IH.
  - rewrite E. rewrite rstrip_cons, E. reflexivity.
Qed.

Lemma split_all_space (cur s : pystr) :
  forallb isspace s = true -> split_from cur s = if truthy cur then [cur] else [].
Proof.
  revert cur. induction s as [|c s IH]; intros cur H; simpl in *; [reflexivity|].
  apply andb_true_iff in H as [Hc Hs]. rewrite Hc.
  rewrite (IH [] Hs). simpl. reflexivity.
Qed.

Lemma split_from_word (cur s : pystr) : cur <> [] -> split_from cur s <> [].
Proof.
  revert cur. induction s as [|c s IH]; intros cur H; simpl.
  - destruct cur; [congruence | discriminate].
  - destruct (isspace c).
    + destruct cur; [congruence | discriminate].
    + apply IH. destruct cur; discriminate.
Qed.

Lemma split_not_nil (s : pystr) : forallb isspace s = false -> split_from [] s <> [].
Proof.
  induction s as [|c s IH]; simpl; [discriminate|].
  destruct (isspace c); simpl; [exact IH|].
  intros _. apply split_from_word. discriminate.
Qed.

Lemma sub_spaces_in_run (s : pystr) :
  sub_spaces_from true s = sub_spaces_from false (lstrip s).
Proof.
  induction s as [|c s IH]; simpl; [reflexivity|].
  destruct (isspace c) eqn:E; [exact IH|]. simpl. rewrite E. reflexivity.
Qed.

Lemma join_cons (sep p : pystr) (rest : list pystr) :
  join sep (p :: rest) = if truthy rest then p ++ sep ++ join sep rest else p.
Proof. destruct rest; reflexivity. Qed.

(** Joining the words of a string with underscores is what trimming and
    collapsing its whitespace runs gives. *)
Lemma join_split_both (s : pystr) :
  (forall cur, cur <> [] ->
     join (lit "_") (split_from cur s) = cur ++ sub_spaces (rstrip s))
  /\ join (lit "_") (split_from [] s) = sub_spaces (strip s).
Proof.
  unfold sub_spaces, strip.
  induction s as [|c s [IHw IHe]]; [split; [intros cur H|]|split; [intros cur H|]].
  - simpl. destruct cur; [congruence|]. simpl. now rewrite app_nil_r.
  - reflexivity.
  - simpl split_from. rewrite rstrip_cons.
    destruct (isspace c) eqn:E; simpl andb.
    + replace (truthy cur) with true by (destruct cur; [congruence|reflexivity]).
      rewrite join_cons.
      destruct (rstrip s) as [|d u] eqn:R.
      * assert (A : forallb isspace s = true) by (now apply rstrip_all_space).
        rewrite (split_all_space [] s A). simpl. now rewrite app_nil_r.
      * assert (A : forallb isspace s = false).
        { destruct (forallb isspace s) eqn:F; [|reflexivity].
          apply rstrip_all_space in F. congruence. }
        apply split_not_nil in A. apply truthy_true in A. rewrite A.
        rewrite IHe. simpl negb. cbn iota.
        rewrite <- lstrip_rstrip, R, <- sub_spaces_in_run.
        simpl. rewrite E. reflexivity.
    + rewrite (IHw (cur ++ [c])) by (destruct cur; discriminate).
      simpl. rewrite E. now rewrite <- app_assoc.
  - simpl split_from. simpl lstrip.
    destruct (isspace c) eqn:E.
    + exact IHe.
    + rewrite (IHw [c]) by discriminate.
      rewrite rstrip_cons, E. simpl. now rewrite E.
Qed.

Lemma sub_spaces_strip (s : pystr) :
  sub_spaces (strip s) = join (lit "_") (split s).
Proof. symmetry. apply join_split_both. Qed.

(** What [strip] removes is whitespace, and what it leaves neither starts nor
    ends with whitespace. *)
Lemma lstrip_decompose (s : pystr) :
  exists l, s = l ++ lstrip s /\ forallb isspace l = true.
Proof.
  induction s as [|c s [l [E F]]]; [now exists []|].
  simpl. destruct (isspace c) eqn:C.
  - exists (c :: l). simpl. rewrite C, F. split; [now f_equal | reflexivity].
  - now exists [].
Qed.

Lemma forallb_rev {A} (f : A -> bool) (l : list A) : forallb f (rev l) = forallb f l.
Proof.
  induction l as [|a l IH]; [reflexivity|].
  simpl. rewrite forallb_app, IH. simpl. rewrite andb_true_r. apply andb_comm.
Qed.

Lemma rstrip_decompose (s : pystr) :
  exists r, s = rstrip s ++ r /\ forallb isspace r = true.
Proof.
  unfold rstrip. destruct (lstrip_decompose (rev s)) as [l [E F]].
  exists (rev l). split.
  - rewrite <- rev_app_distr, <- E. now rewrite rev_involutive.
  - now rewrite forallb_rev.
Qed.

Lemma strip_decompose (s : pystr) :
  exists l r, s = l ++ strip s ++ r
              /\ forallb isspace l = true /\ forallb isspace r = true.
Proof.
  destruct (lstrip_decompose s) as [l [El Fl]].
  destruct (rstrip_decompose (lstrip s)) as [r [Er Fr]].
  exists l, r. unfold strip. rewrite <- Er. auto.
Qed.

Lemma lstrip_head (s : pystr) : match lstrip s with [] => True | c :: _ => isspace c = false end.
Proof.
  induction s as [|c s IH]; simpl; [exact I|].
  destruct (isspace c) eqn:E; [exact IH | exact E].
Qed.

Lemma lstrip_fixed (s : pystr) :
  match s with [] => True | c :: _ => isspace c = false end -> lstrip s = s.
Proof. destruct s as [|c s]; simpl; [reflexivity|]. now intros ->. Qed.

Lemma lstrip_idem (s : pystr) : lstrip (lstrip s) = lstrip s.
Proof. apply lstrip_fixed, lstrip_head. Qed.

Lemma rstrip_idem (s : pystr) : rstrip (rstrip s) = rstrip s.
Proof. unfold rstrip. now rewrite rev_involutive, lstrip_idem. Qed.

Lemma strip_idem (s : pystr) : strip (strip s) = strip s.
Proof.
  unfold strip. rewrite lstrip_rstrip, lstrip_idem, rstrip_idem. reflexivity.
Qed.

Lemma strip_ends (s : pystr) :
  match strip s with [] => True | c :: _ => isspace c = false end
  /\ match rev (strip s) with [] => True | c :: _ => isspace c = false end.
Proof.
  split.
  - unfold strip. rewrite <- lstrip_rstrip. apply lstrip_head.
  - unfold strip, rstrip. rewrite rev_involutive. apply lstrip_head.
Qed.

(** ** The sanitizer *)

Lemma sub_unsafe_safe (s : pystr) : safe_str (sub_unsafe s).
Proof.
  unfold safe_str, sub_unsafe. apply Forall_forall. intros c H.
  now apply filter_In in H.
Qed.

Lemma firstn_safe (n : nat) (s : pystr) : safe_str s -> safe_str (firstn n s).
Proof.
  unfold safe_str. intros H. rewrite <- (firstn_skipn n s) in H.
  now apply Forall_app in H.
Qed.

Lemma slice_to_safe (n : Z) (s : pystr) : safe_str s -> safe_str (slice_to n s).
Proof. unfold slice_to. destruct (0 <=? n)%Z; apply firstn_safe. Qed.

Lemma slice_to_length (n : Z) (s : pystr) :
  (0 <= n)%Z -> length (slice_to n s) <= Z.to_nat n.
Proof.
  intros H. unfold slice_to. apply Z.leb_le in H. rewrite H. apply firstn_le_length.
Qed.

Lemma slice_to_all (n : Z) (s : pystr) :
  (Z.of_nat (length s) <= n)%Z -> slice_to n s = s.
Proof.
  intros H. unfold slice_to.
  replace (0 <=? n)%Z with true by (symmetry; apply Z.leb_le; lia).
  apply firstn_all2. lia.
Qed.

Lemma slice_to_truthy (n : Z) (s : pystr) :
  (0 < n)%Z -> truthy (slice_to n s) = truthy s.
Proof.
  intros H. unfold slice_to.
  replace (0 <=? n)%Z with true by (symmetry; apply Z.leb_le; lia).
  destruct (Z.to_nat n) as [|k] eqn:E; [lia|].
  destruct s; reflexivity.
Qed.

Lemma utt_safe : safe_str (lit "utt").
Proof. repeat constructor. Qed.

Lemma sanitize_filename_safe (name : pystr) (max_len : Z) :
  safe_str (sanitize_filename name max_len).
Proof.
  unfold sanitize_filename.
  destruct (truthy _); [apply slice_to_safe, sub_unsafe_safe | apply utt_safe].
Qed.

Lemma sanitize_filename_length (name : pystr) (max_len : Z) :
  (3 <= max_len)%Z -> length (sanitize_filename name max_len) <= Z.to_nat max_len.
Proof.
  intros H. unfold sanitize_filename.
  destruct (truthy _); [apply slice_to_length; lia | simpl; lia].
Qed.

Lemma sanitize_filename_as_spec (name : pystr) (max_len : Z) :
  (0 < max_len)%Z -> sanitize_filename name max_len = sanitize_spec name max_len.
Proof.
  intros H. unfold sanitize_filename, sanitize_spec. cbv zeta.
  rewrite slice_to_truthy by exact H. reflexivity.
Qed.

Lemma sanitize_filename_truthy (name : pystr) (max_len : Z) :
  (0 < max_len)%Z -> truthy (sanitize_filename name max_len) = true.
Proof.
  intros H. unfold sanitize_filename.
  destruct (truthy (sub_unsafe _)) eqn:E; [|reflexivity].
  now rewrite slice_to_truthy.
Qed.

Lemma safe_lstrip (s : pystr) : safe_str s -> lstrip s = s.
Proof.
  intros H. apply lstrip_fixed. destruct H as [|c s Hc _]; [exact I|].
  now apply safe_not_space.
Qed.

Lemma safe_strip (s : pystr) : safe_str s -> strip s = s.
Proof.
  intros H. unfold strip, rstrip. rewrite (safe_lstrip s H).
  rewrite safe_lstrip; [apply rev_involutive|].
  unfold safe_str. now apply Forall_rev.
Qed.

Lemma safe_sub_spaces (s : pystr) (b : bool) : safe_str s -> sub_spaces_from b s = s.
Proof.
  intros H. revert b. induction H as [|c s Hc _ IH]; intros b; simpl; [reflexivity|].
  rewrite (safe_not_space c Hc), IH. reflexivity.
Qed.

Lemma safe_sub_unsafe (s : pystr) : safe_str s -> sub_unsafe s = s.
Proof.
  intros H. unfold sub_unsafe. apply forallb_filter_id.
  apply forallb_forall. now apply Forall_forall.
Qed.

Lemma sanitize_filename_fixed (s : pystr) (max_len : Z) :
  s <> [] -> safe_str s -> (Z.of_nat (length s) <= max_len)%Z ->
  sanitize_filename s max_len = s.
Proof.
  intros Hne Hs Hl. unfold sanitize_filename. cbv zeta.
  rewrite (safe_strip s Hs). unfold sub_spaces. rewrite (safe_sub_spaces s false Hs).
  rewrite (safe_sub_unsafe s Hs).
  apply truthy_true in Hne. rewrite Hne. now apply slice_to_all.
Qed.

(** [is_safe] accepts exactly the 65 characters of the class. *)
Lemma is_safe_alphabet (c : codepoint) : is_safe c = true <-> In c alphabet.
Proof.
  assert (T : forallb (fun k => Bool.eqb (is_safe (N.of_nat k))
                                   (existsb (N.eqb (N.of_nat k)) alphabet))
                      (seq 0 123) = true) by (vm_compute; reflexivity).
  assert (B : Forall (fun a => (a <= 122)%N) alphabet).
  { apply Forall_forall. intros a Ha.
    assert (F : forallb (fun a => (a <=? 122)%N) alphabet = true) by (vm_compute; reflexivity).
    rewrite forallb_forall in F. apply N.leb_le. now apply F. }
  assert (E : In c alphabet <-> existsb (N.eqb c) alphabet = true).
  { rewrite existsb_exists. split.
    - intros H. exists c. split; [exact H | apply N.eqb_refl].
    - intros [a [Ha Hc]]. apply N.eqb_eq in Hc. now subst. }
  destruct (N.le_gt_cases c 122) as [L|G].
  - rewrite forallb_forall in T. specialize (T (N.to_nat c)).
    rewrite N2Nat.id in T. rewrite E.
    assert (I : In (N.to_nat c) (seq 0 123)) by (apply in_seq; lia).
    apply T, Bool.eqb_prop in I. rewrite I. tauto.
  - split; intros H.
    + apply is_safe_bounds in H. lia.
    + rewrite Forall_forall in B. apply B in H. lia.
Qed.

Lemma safe_str_matches (n : nat) (s : pystr) :
  safe_str s -> length s <= n -> matches_safe n s.
Proof.
  intros H L. split; [|exact L].
  unfold safe_str in H. rewrite Forall_forall in *. intros c Hc.
  now apply is_safe_alphabet, H.
Qed.

Lemma matches_safe_str (n : nat) (s : pystr) : matches_safe n s -> safe_str s.
Proof.
  intros [H _]. unfold safe_str. rewrite Forall_forall in *. intros c Hc.
  now apply is_safe_alphabet, H.
Qed.

(** C2. With the default maximum length 100, [sanitize_filename] trims the
    surrounding whitespace, turns every inner whitespace run into one
    underscore, drops every character outside [A-Za-z0-9._-], keeps at most
    100 characters and answers ["utt"] when nothing is left; its output matches
    [^[A-Za-z0-9._-]{0,100}$] or is ["utt"].  It is a total function of its
    arguments. *)
Theorem sanitize_filename_contract (name : pystr) :
  let out := sanitize_filename name default_max_len in
  (exists l r, name = l ++ strip name ++ r
               /\ forallb isspace l = true /\ forallb isspace r = true)
  /\ match strip name with [] => True | c :: _ => isspace c = false end
  /\ match rev (strip name) with [] => True | c :: _ => isspace c = false end
  /\ sub_spaces (strip name) = join (lit "_") (split name)
  /\ (forall c, In c (sub_unsafe (sub_spaces (strip name)))
                <-> In c (sub_spaces (strip name)) /\ In c alphabet)
  /\ out = sanitize_spec name default_max_len
  /\ out = (let kept := firstn 100 (filter is_safe (join (lit "_") (split name))) in
            if truthy kept then kept else lit "utt")
  /\ (matches_safe 100 out \/ out = lit "utt").
Proof.
  cbv zeta.
  assert (S : sanitize_filename name default_max_len = sanitize_spec name default_max_len)
    by (apply sanitize_filename_as_spec; reflexivity).
  split; [apply strip_decompose|].
  split; [apply strip_ends|].
  split; [apply strip_ends|].
  split; [apply sub_spaces_strip|].
  split.
  { intros c. unfold sub_unsafe. rewrite filter_In, is_safe_alphabet. tauto. }
  split; [exact S|].
  split.
  { rewrite S. unfold sanitize_spec. rewrite sub_spaces_strip. reflexivity. }
  left. apply safe_str_matches.
  - apply sanitize_filename_safe.
  - apply (sanitize_filename_length name default_max_len).
    unfold default_max_len. lia.
Qed.

(** C9. A non-empty string of characters [A-Za-z0-9._-] no longer than the
    maximum length is returned unchanged, and sanitizing twice at the default
    maximum length gives what sanitizing once gives. *)
Theorem sanitize_filename_idempotent (s x : pystr) (max_len : Z) :
  (s <> [] -> matches_safe (Z.to_nat max_len) s -> sanitize_filename s max_len = s)
  /\ sanitize_filename (sanitize_filename x default_max_len) default_max_len
     = sanitize_filename x default_max_len.
Proof.
  split.
  - intros Hne Hm. apply sanitize_filename_fixed.
    + exact Hne.
    + eapply matches_safe_str; eauto.
    + destruct Hm as [_ L]. destruct s as [|c s]; [congruence|].
      cbn [length] in *. lia.
  - apply sanitize_filename_fixed.
    + apply truthy_true, sanitize_filename_truthy. reflexivity.
    + apply sanitize_filename_safe.
    + pose proof (sanitize_filename_length x default_max_len) as L.
      unfold default_max_len in *. lia.
Qed.

Lemma sanitize_filename_idempotent_witness :
  lit "a.b_c-9" <> []
  /\ matches_safe (Z.to_nat 7) (lit "a.b_c-9")
  /\ sanitize_filename (lit "a.b_c-9") 7 = lit "a.b_c-9".
Proof.
  assert (N : lit "a.b_c-9" <> []) by discriminate.
  assert (S : matches_safe (Z.to_nat 7) (lit "a.b_c-9")).
  { apply safe_str_matches; [repeat constructor | vm_compute; lia]. }
  split; [exact N|]. split; [exact S|].
  exact (proj1 (sanitize_filename_idempotent (lit "a.b_c-9") [] 7) N S).
Defined.

(** C10. At the default maximum length [sanitize_filename] never returns the
    empty string.  So the slug of the detailed runner is never empty, its
    file name always has the form with a slug segment and never the form
    without one, and [short_slug or 'utt'] in the advanced runner is
    [short_slug]. *)
Theorem slug_never_empty (s : pystr) (i : N) (row : record) (lang : pystr) :
  let rid := sanitize_filename (id row) default_max_len in
  sanitize_filename s default_max_len <> []
  /\ slug_of (text row) <> []
  /\ detailed_fname i row
     = fmt_03d i ++ lit "_" ++ rid ++ lit "_" ++ slug_of (text row) ++ lit ".wav"
  /\ detailed_fname i row <> fmt_03d i ++ lit "_" ++ rid ++ lit ".wav"
  /\ str_or (slug_of (text row)) (lit "utt") = slug_of (text row)
  /\ advanced_fname i row lang
     = fmt_03d i ++ lit "_" ++ rid ++ lit "_" ++ slug_of (text row)
       ++ lit "." ++ lang ++ lit ".wav".
Proof.
  cbv zeta.
  assert (T : forall x, truthy (sanitize_filename x default_max_len) = true)
    by (intros x; apply sanitize_filename_truthy; reflexivity).
  assert (D : detailed_fname i row
              = fmt_03d i ++ lit "_" ++ sanitize_filename (id row) default_max_len
                ++ lit "_" ++ slug_of (text row) ++ lit ".wav").
  { unfold detailed_fname. cbv zeta. unfold slug_of at 1. now rewrite T. }
  split; [apply truthy_true, T|].
  split; [apply truthy_true, T|].
  split; [exact D|].
  split.
  - rewrite D. intros E.
    do 3 apply app_inv_head in E.
    apply (f_equal (@length _)) in E. rewrite !length_app in E. simpl in E. lia.
  - assert (O : str_or (slug_of (text row)) (lit "utt") = slug_of (text row))
      by (unfold str_or, slug_of; now rewrite T).
    split; [exact O|].
    unfold advanced_fname. cbv zeta. now rewrite O.
Qed.

(** ** DictReader rows *)

Lemma dict_get_set (d : list (pystr * option pystr)) (k k' : pystr) (v : option pystr) :
  dict_get (dict_set d k v) k' = if pystr_eqb k k' then v else dict_get d k'.
Proof.
  unfold dict_get. induction d as [|[k0 v0] d IH]; simpl.
  - destruct (pystr_eqb k k'); reflexivity.
  - destruct (pystr_eqb k0 k) eqn:E0; simpl.
    + apply pystr_eqb_eq in E0. subst k0.
      destruct (pystr_eqb k k'); reflexivity.
    + destruct (pystr_eqb k0 k') eqn:E1; [|exact IH].
      apply pystr_eqb_eq in E1. subst k'. now rewrite (proj2 (pystr_eqb_neq k k0)) by
        (apply pystr_eqb_neq in E0; congruence).
Qed.

Lemma dict_get_zip (k : pystr) (fieldnames row : list pystr) (d : list (pystr * option pystr)) :
  dict_get (fold_left (fun d kv => dict_set d (fst kv) (Some (snd kv)))
                      (combine fieldnames row) d) k
  = match cell_of fieldnames row k with Some v => Some v | None => dict_get d k end.
Proof.
  revert row d. induction fieldnames as [|f fs IH]; intros [|c cs] d; simpl; try reflexivity.
  rewrite IH, dict_get_set. simpl.
  destruct (cell_of fs cs k); [reflexivity|].
  destruct (pystr_eqb f k); reflexivity.
Qed.

Lemma dict_get_fill (k : pystr) (keys : list pystr) (d : list (pystr * option pystr)) :
  dict_get (fold_left (fun d key => dict_set d key None) keys d) k
  = if mem k keys then None else dict_get d k.
Proof.
  revert d. induction keys as [|k0 keys IH]; intros d; simpl; [reflexivity|].
  rewrite IH, dict_get_set.
  destruct (mem k keys); [now rewrite orb_true_r|]. rewrite orb_false_r.
  destruct (pystr_eqb k0 k) eqn:E.
  - apply pystr_eqb_eq in E. subst. now rewrite pystr_eqb_refl.
  - replace (pystr_eqb k k0) with false; [reflexivity|].
    symmetry. apply pystr_eqb_neq. apply pystr_eqb_neq in E. congruence.
Qed.

(** [row.get(k)] on a [DictReader] row, whatever the header. *)
Lemma row_get_dict_row (fieldnames row : list pystr) (k : pystr) :
  row_get (dict_row fieldnames row) k
  = if (length row <? length fieldnames) && mem k (skipn (length row) fieldnames)
    then None else cell_of fieldnames row k.
Proof.
  unfold row_get, dict_row, dict_zip.
  destruct (length fieldnames <? length row) eqn:A; simpl.
  - apply Nat.ltb_lt in A.
    replace (length row <? length fieldnames) with false by (symmetry; apply Nat.ltb_ge; lia).
    simpl. rewrite dict_get_zip. now destruct (cell_of fieldnames row k).
  - destruct (length row <? length fieldnames) eqn:B; simpl.
    + rewrite dict_get_fill, dict_get_zip.
      destruct (mem k _); [reflexivity|]. now destruct (cell_of fieldnames row k).
    + rewrite dict_get_zip. now destruct (cell_of fieldnames row k).
Qed.

Lemma mem_In (k : pystr) (xs : list pystr) : mem k xs = true <-> In k xs.
Proof.
  unfold mem. rewrite existsb_exists. split.
  - intros [x [H E]]. apply pystr_eqb_eq in E. now subst.
  - intros H. exists k. split; [exact H | apply pystr_eqb_refl].
Qed.

Lemma cell_of_absent (fieldnames row : list pystr) (k : pystr) :
  ~ In k fieldnames -> cell_of fieldnames row k = None.
Proof.
  revert row. induction fieldnames as [|f fs IH]; intros [|c cs] H; simpl; try reflexivity.
  rewrite IH by (simpl in H; tauto).
  replace (pystr_eqb f k) with false; [reflexivity|].
  symmetry. apply pystr_eqb_neq. simpl in H. tauto.
Qed.

Lemma cell_of_unique (pre post row : list pystr) (k : pystr) :
  ~ In k pre -> ~ In k post ->
  cell_of (pre ++ k :: post) row k = nth_error row (length pre).
Proof.
  revert row. induction pre as [|p pre IH]; intros [|c cs] Hpre Hpost; simpl; try reflexivity.
  - now rewrite cell_of_absent, pystr_eqb_refl.
  - rewrite IH by (simpl in Hpre; tauto).
    destruct (nth_error cs (length pre)); [reflexivity|].
    replace (pystr_eqb p k) with false; [reflexivity|].
    symmetry. apply pystr_eqb_neq. simpl in Hpre. tauto.
Qed.

(** Without a column named [k], [row.get(k)] is [None]. *)
Lemma row_get_absent (fieldnames row : list pystr) (k : pystr) :
  ~ In k fieldnames -> row_get (dict_row fieldnames row) k = None.
Proof.
  intros H. rewrite row_get_dict_row, cell_of_absent by exact H.
  now destruct (_ && _).
Qed.

(** With exactly one column named [k], [row.get(k)] is the cell of the row in
    that column, [None] when the row is too short. *)
Lemma row_get_unique (pre post row : list pystr) (k : pystr) :
  ~ In k pre -> ~ In k post ->
  row_get (dict_row (pre ++ k :: post) row) k = nth_error row (length pre).
Proof.
  intros Hpre Hpost. rewrite row_get_dict_row, cell_of_unique by assumption.
  destruct (_ && _) eqn:E; [|reflexivity].
  apply andb_true_iff in E as [L Hm]. apply Nat.ltb_lt in L. apply mem_In in Hm.
  symmetry. apply nth_error_None.
  destruct (Nat.le_gt_cases (length row) (length pre)) as [G|G]; [exact G|].
  exfalso. apply Hpost.
  replace (length row) with (length pre + (length row - length pre)) in Hm by lia.
  rewrite skipn_app in Hm.
  rewrite skipn_all2 in Hm by lia. simpl in Hm.
  replace (length pre + (length row - length pre) - length pre)
    with (S (length row - length pre - 1)) in Hm by lia.
  rewrite skipn_cons in Hm.
  rewrite <- (firstn_skipn (length row - length pre - 1) post).
  apply in_or_app. now right.
Qed.

Lemma find_keys_set (p : pystr -> bool) (d : list (pystr * option pystr))
      (k : pystr) (v : option pystr) :
  find p (map fst (dict_set d k v))
  = match find p (map fst d) with
    | Some x => Some x
    | None => if p k then Some k else None
    end.
Proof.
  induction d as [|[k0 v0] d IH]; simpl; [reflexivity|].
  destruct (pystr_eqb k0 k) eqn:E; simpl.
  - apply pystr_eqb_eq in E. subst k0.
    destruct (p k) eqn:P; [reflexivity|]. now destruct (find p (map fst d)).
  - destruct (p k0); [reflexivity | exact IH].
Qed.

Lemma find_keys_zip (p : pystr -> bool) (fieldnames row : list pystr)
      (d : list (pystr * option pystr)) :
  find p (map fst (fold_left (fun d kv => dict_set d (fst kv) (Some (snd kv)))
                             (combine fieldnames row) d))
  = match find p (map fst d) with
    | Some x => Some x
    | None => find p (firstn (length row) fieldnames)
    end.
Proof.
  revert row d. induction fieldnames as [|f fs IH]; intros [|c cs] d; simpl;
    try (now destruct (find p (map fst d))).
  rewrite IH, find_keys_set. simpl.
  destruct (find p (map fst d)); [reflexivity|]. now destruct (p f).
Qed.

Lemma find_keys_fill (p : pystr -> bool) (keys : list pystr)
      (d : list (pystr * option pystr)) :
  find p (map fst (fold_left (fun d key => dict_set d key None) keys d))
  = match find p (map fst d) with
    | Some x => Some x
    | None => find p keys
    end.
Proof.
  revert d. induction keys as [|k keys IH]; intros d; simpl;
    [now destruct (find p (map fst d))|].
  rewrite IH, find_keys_set.
  destruct (find p (map fst d)); [reflexivity|]. now destruct (p k).
Qed.

Lemma find_app_or {A} (p : A -> bool) (l1 l2 : list A) :
  find p (l1 ++ l2) = match find p l1 with Some x => Some x | None => find p l2 end.
Proof.
  induction l1 as [|a l1 IH]; simpl; [reflexivity|]. now destruct (p a).
Qed.

(** Searching the keys of a [DictReader] row, in their order, is searching
    the header. *)
Lemma find_keys_dict_row (p : pystr -> bool) (fieldnames row : list pystr) :
  find p (map fst (named (dict_row fieldnames row))) = find p fieldnames.
Proof.
  unfold dict_row, dict_zip.
  destruct (length fieldnames <? length row) eqn:A; simpl.
  - apply Nat.ltb_lt in A. rewrite find_keys_zip. simpl.
    now rewrite firstn_all2 by lia.
  - apply Nat.ltb_ge in A.
    destruct (length row <? length fieldnames) eqn:B; simpl.
    + rewrite find_keys_fill, find_keys_zip. simpl.
      rewrite <- find_app_or. now rewrite firstn_skipn.
    + apply Nat.ltb_ge in B. rewrite find_keys_zip. simpl.
      now rewrite firstn_all2 by lia.
Qed.

Lemma candidates_truthy (c : pystr) : In c candidates -> truthy c = true.
Proof.
  intros H. assert (F : forallb (@truthy _) candidates = true) by reflexivity.
  rewrite forallb_forall in F. now apply F.
Qed.

Section LoaderFacts.

Variable lower : pystr -> pystr.

Lemma next_key_find (keys : list pystr) (more : list (option pystr)) (c : pystr) :
  next_key lower (map Some keys ++ more) c
  = match find (fun k => pystr_eqb (lower k) c) keys with
    | Some k => Ok k
    | None => next_key lower more c
    end.
Proof.
  induction keys as [|k keys IH]; simpl; [reflexivity|].
  destruct (pystr_eqb (lower k) c); [reflexivity | exact IH].
Qed.

Lemma text_col_lower_candidate (fieldnames : list pystr) (c : pystr) :
  text_col_lower lower fieldnames = Some c ->
  In c candidates /\ In c (map lower fieldnames).
Proof.
  unfold text_col_lower. intros H. apply find_some in H as [H1 H2].
  split; [exact H1 | now apply mem_In].
Qed.

(** A header with at least one name has a text column, one of its names. *)
Lemma text_column_defined (first_col : pystr) (others : list pystr) :
  exists key, text_column lower (first_col :: others) = Some key
              /\ In key (first_col :: others).
Proof.
  unfold text_column.
  destruct (text_col_lower lower (first_col :: others)) as [c|] eqn:E.
  - apply text_col_lower_candidate in E as [_ H].
    apply in_map_iff in H as [k [Hk Hin]].
    destruct (find (fun k => pystr_eqb (lower k) c) (first_col :: others)) as [key|] eqn:F.
    + exists key. split; [reflexivity|]. now apply find_some in F.
    + exfalso. apply (find_none _ _ F) in Hin. simpl in Hin.
      rewrite Hk, pystr_eqb_refl in Hin. discriminate.
  - exists first_col. simpl. auto.
Qed.

(** The key the loop computes for a row is the text column of the header:
    neither [next] nor [k.lower()] raises. *)
Lemma text_key_column (first_col : pystr) (others row : list pystr) (key : pystr) :
  text_column lower (first_col :: others) = Some key ->
  text_key lower (text_col_lower lower (first_col :: others)) first_col
           (dict_row (first_col :: others) row) = Ok key.
Proof.
  unfold text_column, text_key. intros H.
  destruct (text_col_lower lower (first_col :: others)) as [c|] eqn:E.
  - apply text_col_lower_candidate in E as [Hc _].
    rewrite (candidates_truthy c Hc).
    unfold row_keys. rewrite <- (map_map fst Some), next_key_find.
    rewrite find_keys_dict_row, H. reflexivity.
  - simpl in H. congruence.
Qed.

Lemma kept_text (key : pystr) (p : N * csv_row) :
  kept key p = truthy (strip (or_empty (row_get (snd p) key))).
Proof. reflexivity. Qed.

Lemma collect_records (col : option pystr) (first_col key : pystr)
      (reader : list csv_row) :
  (forall row, In row reader -> text_key lower col first_col row = Ok key) ->
  forall (idx : N) (rows : list record),
    collect lower col first_col idx reader rows
    = Ok (rows ++ map (row_record key) (filter (kept key) (enumerate idx reader))).
Proof.
  induction reader as [|row more IH]; intros H idx rows; simpl.
  - now rewrite app_nil_r.
  - rewrite (H row) by (now left).
    rewrite kept_text. simpl snd.
    destruct (truthy (strip (or_empty (row_get row key)))) eqn:T; simpl.
    + rewrite IH by (intros r Hr; apply H; now right).
      rewrite <- app_assoc. reflexivity.
    + apply IH. intros r Hr. apply H. now right.
Qed.

(** [load_rows] on a file with a header: the records of the rows with text,
    or the complaint that there are none. *)
Lemma load_rows_header (first_col : pystr) (others : list pystr)
      (data : list (list pystr)) (key : pystr) :
  text_column lower (first_col :: others) = Some key ->
  load_rows lower ((first_col :: others) :: data)
  = let rows := records key (dict_rows (first_col :: others) data) in
    if truthy rows then Ok rows else Raise (ValueError NoTextLines).
Proof.
  intros H. unfold load_rows.
  rewrite (collect_records _ first_col key).
  - simpl app. unfold records. cbv zeta.
    now destruct (truthy _).
  - intros row Hr. unfold dict_rows in Hr. apply in_map_iff in Hr as [cells [<- _]].
    now apply text_key_column.
Qed.

End LoaderFacts.

(** ** The loader *)








(** What a successful [load_rows] returns. *)
Lemma load_rows_ok (lower : pystr -> pystr) (lines : list (list pystr)) (rows : list record) :
  load_rows lower lines = Ok rows ->
  exists fieldnames data key,
    lines = fieldnames :: data
    /\ text_column lower fieldnames = Some key
    /\ rows = records key (dict_rows fieldnames data)
    /\ rows <> [].
Proof.
  destruct lines as [|[|first_col others] data]; try discriminate.
  destruct (text_column_defined lower first_col others) as [key [K _]].
  rewrite (load_rows_header lower first_col others data key K). cbv zeta.
  destruct (truthy _) eqn:T; [|discriminate].
  intros E. injection E as <-.
  exists (first_col :: others), data, key. repeat split; auto.
  now apply truthy_true.
Qed.

Example str_of_N_1 : str_of_N 1 = lit "1" /\ str_of_N 120 = lit "120".
Proof. split; reflexivity. Qed.





Lemma load_csv_lines_unfold (lower : pystr -> pystr) (w : world) (csv_path : path) (t : trace) :
  load_csv_lines lower w csv_path t
  = (t, if path_exists w t csv_path
        then match csv_open w t csv_path with
             | Some e => Raise e
             | None => load_read lower (csv_reader w t csv_path) (csv_failure w t csv_path)
             end
        else Raise (FileNotFoundError csv_path)).
Proof.
  unfold load_csv_lines, bind, exists_, raise, lift.
  destruct (path_exists w t csv_path); [|reflexivity].
  cbn [negb]. now destruct (csv_open w t csv_path).
Qed.







Lemma enumerate_nth {A} (xs : list A) (i : N) (n : nat) :
  nth_error (enumerate i xs) n
  = option_map (fun x => ((i + N.of_nat n)%N, x)) (nth_error xs n).
Proof.
  revert i n. induction xs as [|x xs IH]; intros i [|n]; simpl; try reflexivity.
  - now rewrite N.add_0_r.
  - rewrite IH. destruct (nth_error xs n); simpl; [|reflexivity].
    do 2 f_equal. lia.
Qed.

Lemma enumerate_position {A} (xs : list A) (i : N) (n : nat) (p : N * A) :
  nth_error (enumerate i xs) n = Some p ->
  fst p = (i + N.of_nat n)%N /\ nth_error xs n = Some (snd p).
Proof.
  rewrite enumerate_nth. destruct (nth_error xs n) as [x|]; [|discriminate].
  unfold option_map. intros H.
  assert (E : p = ((i + N.of_nat n)%N, x)) by congruence.
  rewrite E. split; reflexivity.
Qed.

Lemma enumerate_fst_ge {A} (xs : list A) (i : N) (p : N * A) :
  In p (enumerate i xs) -> (i <= fst p)%N.
Proof.
  revert i. induction xs as [|x xs IH]; intros i; simpl; [intros []|].
  intros [<-|H]; [simpl; lia|]. apply IH in H. lia.
Qed.

Lemma enumerate_In_snd {A} (xs : list A) (i : N) (p : N * A) :
  In p (enumerate i xs) -> In (snd p) xs.
Proof.
  revert i. induction xs as [|x xs IH]; intros i; simpl; [intros []|].
  intros [<-|H]; [now left | right; eapply IH; eauto].
Qed.

Lemma enumerate_map {A B} (g : A -> B) (xs : list A) (i : N) :
  enumerate i (map g xs) = map (fun p => (fst p, g (snd p))) (enumerate i xs).
Proof.
  revert i. induction xs as [|x xs IH]; intros i; simpl; [reflexivity|].
  now rewrite IH.
Qed.

Lemma filter_under_map {A B} (g : A -> B) (keep : B -> bool) (xs : list A) :
  filter keep (map g xs) = map g (filter (fun x => keep (g x)) xs).
Proof.
  induction xs as [|x xs IH]; simpl; [reflexivity|].
  destruct (keep (g x)); simpl; now rewrite IH.
Qed.

(** The records of a file, from its numbered data lines. *)
Lemma records_of_kept (header : list pystr) (key : pystr) (data : list (list pystr)) :
  records key (dict_rows header data)
  = map (fun p => {| id := row_id (dict_row header (snd p)) (fst p);
                     text := row_text key (dict_row header (snd p)) |})
        (kept_rows header key data).
Proof.
  unfold records, dict_rows, kept_rows, numbered_rows.
  rewrite enumerate_map, filter_under_map, map_map. reflexivity.
Qed.

(** The number of a data line is its 1-based position among the lines that
    are not blank. *)
Lemma numbered_rows_position (data : list (list pystr)) (p : N * list pystr) :
  In p (numbered_rows data) ->
  (1 <= fst p)%N
  /\ nth_error (filter (fun cells => negb (is_blank cells)) data) (N.to_nat (fst p) - 1)
     = Some (snd p).
Proof.
  unfold numbered_rows. intros I. split; [now apply enumerate_fst_ge in I|].
  apply In_nth_error in I as [n I]. apply enumerate_position in I as [E I].
  rewrite E. replace (N.to_nat (1 + N.of_nat n) - 1) with n by lia. exact I.
Qed.

Lemma Forall2_map_left {A B} (P : B -> A -> Prop) (g : A -> B) (xs : list A) :
  (forall x, In x xs -> P (g x) x) -> Forall2 P (map g xs) xs.
Proof.
  induction xs as [|x xs IH]; intros H; simpl; constructor.
  - apply H. now left.
  - apply IH. intros y I. apply H. now right.
Qed.

Lemma row_id_cases (row : csv_row) (idx : N) :
  row_id row idx = match row_get row (lit "id") with
                   | Some (c :: v) => c :: v
                   | _ => str_of_N idx
                   end.
Proof. unfold row_id. destruct (row_get _ _) as [[|c v]|]; reflexivity. Qed.

(** C7. When the loader returns, its records are, one for one and in order,
    those of the data rows it kept, and each record has the id of its own
    row: the cell of that row in the [id] column when the header has that
    column and the cell is not empty, and otherwise the decimal form of the
    1-based position of the row.  The position is the one
    [enumerate(reader, start=1)] gives: it counts the rows after the header,
    rows that are dropped for want of a text included, and does not count
    blank lines.  And the loader does return when at least one row is
    kept. *)
Theorem record_id_rule (lower : pystr -> pystr) (lines : list (list pystr))
        (rows : list record) :
  (load_rows lower lines = Ok rows ->
   exists header data key,
     lines = header :: data
     /\ text_column lower header = Some key
     /\ Forall2 (fun r p =>
          let row := dict_row header (snd p) in
          ((1 <= fst p)%N
           /\ nth_error (filter (fun cells => negb (is_blank cells)) data)
                        (N.to_nat (fst p) - 1)
              = Some (snd p))
          /\ text r = row_text key row
          /\ id r = match row_get row (lit "id") with
                    | Some (c :: v) => c :: v
                    | _ => str_of_N (fst p)
                    end
          /\ (~ In (lit "id") header -> id r = str_of_N (fst p))
          /\ (forall before after,
                header = before ++ lit "id" :: after ->
                ~ In (lit "id") before -> ~ In (lit "id") after ->
                id r = match nth_error (snd p) (length before) with
                       | Some (c :: v) => c :: v
                       | _ => str_of_N (fst p)
                       end))
          rows (kept_rows header key data))
  /\ (forall header data key,
        lines = header :: data ->
        header <> [] ->
        text_column lower header = Some key ->
        kept_rows header key data <> [] ->
        load_rows lower lines
        = Ok (map (fun p => {| id := row_id (dict_row header (snd p)) (fst p);
                               text := row_text key (dict_row header (snd p)) |})
                  (kept_rows header key data))).
Proof.
  split.
  - intros H. apply load_rows_ok in H as [header [data [key [E [K [R _]]]]]].
    exists header, data, key. split; [exact E|]. split; [exact K|].
    rewrite R, records_of_kept. apply Forall2_map_left.
    intros p I. cbv zeta. cbn [id text].
    apply filter_In in I as [I _].
    split; [now apply numbered_rows_position|].
    split; [reflexivity|].
    split; [apply row_id_cases|].
    split.
    + intros Hid. now rewrite row_id_cases, row_get_absent.
    + intros before after -> Hb Ha. now rewrite row_id_cases, row_get_unique.
  - intros [|first_col others] data key -> Hne K Hk; [now destruct Hne|].
    rewrite (load_rows_header lower first_col others data key K). cbv zeta.
    rewrite records_of_kept.
    destruct (kept_rows (first_col :: others) key data) as [|p ps]; [now destruct Hk|].
    reflexivity.
Qed.

Lemma record_id_rule_witness :
  load_rows (map ascii_lower) csv_some_ids
  = Ok [ {| id := lit "a"; text := lit "Hello" |};
         {| id := lit "2"; text := lit "World" |};
         {| id := lit "4"; text := lit "Again" |} ]
  /\ kept_rows [lit "id"; lit "text"] (lit "text") (tl csv_some_ids)
     = [ (1%N, [lit "a"; lit "Hello"]); (2%N, [lit ""; lit "World"]);
         (4%N, [lit ""; lit "Again"]) ]
  /\ (exists header data key,
        csv_some_ids = header :: data
        /\ text_column (map ascii_lower) header = Some key
        /\ Forall2 (fun r p =>
             ((1 <= fst p)%N
              /\ nth_error (filter (fun cells => negb (is_blank cells)) data)
                           (N.to_nat (fst p) - 1)
                 = Some (snd p))
             /\ text r = row_text key (dict_row header (snd p))
             /\ (forall before after,
                   header = before ++ lit "id" :: after ->
                   ~ In (lit "id") before -> ~ In (lit "id") after ->
                   id r = match nth_error (snd p) (length before) with
                          | Some (c :: v) => c :: v
                          | _ => str_of_N (fst p)
                          end))
             [ {| id := lit "a"; text := lit "Hello" |};
               {| id := lit "2"; text := lit "World" |};
               {| id := lit "4"; text := lit "Again" |} ]
             (kept_rows header key data))
  /\ load_rows (map ascii_lower) csv_no_id
     = Ok (map (fun p => {| id := row_id (dict_row [lit "foo"; lit "bar"] (snd p)) (fst p);
                            text := row_text (lit "foo")
                                             (dict_row [lit "foo"; lit "bar"] (snd p)) |})
               (kept_rows [lit "foo"; lit "bar"] (lit "foo") (tl csv_no_id))).
Proof.
  assert (L : load_rows (map ascii_lower) csv_some_ids
              = Ok [ {| id := lit "a"; text := lit "Hello" |};
                     {| id := lit "2"; text := lit "World" |};
                     {| id := lit "4"; text := lit "Again" |} ])
    by (vm_compute; reflexivity).
  split; [exact L|]. split; [vm_compute; reflexivity|]. split.
  - destruct (proj1 (record_id_rule (map ascii_lower) csv_some_ids _) L)
      as [header [data [key [E [K F]]]]].
    exists header, data, key. split; [exact E|]. split; [exact K|].
    eapply Forall2_impl; [|exact F].
    intros r p [P [T [_ [_ U]]]]. split; [exact P|]. split; [exact T | exact U].
  - apply (proj2 (record_id_rule (map ascii_lower) csv_no_id [])
             [lit "foo"; lit "bar"] (tl csv_no_id) (lit "foo")).
    + reflexivity.
    + discriminate.
    + vm_compute; reflexivity.
    + vm_compute. discriminate.
Defined.

(** ** Traces of the runners *)

Lemma bind_run {A B} (m : M A) (k : A -> M B) (t : trace) :
  bind m k t = match snd (m t) with
               | Ok a => k a (fst (m t))
               | Raise e => (fst (m t), Raise e)
               end.
Proof. unfold bind. destruct (m t) as [t' [a|e]]; reflexivity. Qed.

Lemma performs_ret {A} (a : A) : performs (ret a) [].
Proof. intros t. exists [], []. simpl. rewrite app_nil_r. auto. Qed.

Lemma performs_perform (c : call) : performs (perform c) [c].
Proof. intros t. exists [c], []. simpl. auto. Qed.

Lemma performs_engine (w : world) (c : call) : performs (engine w c) [c].
Proof. intros t. exists [c], []. simpl. auto. Qed.

Lemma performs_mkdir (w : world) (p : path) : performs (mkdir w p) [Mkdir p].
Proof. intros t. exists [Mkdir p], []. simpl. auto. Qed.

Lemma performs_seq {A B} (m : M A) (k : A -> M B) (p1 p2 : list call) :
  performs m p1 -> (forall a, performs (k a) p2) -> performs (bind m k) (p1 ++ p2).
Proof.
  intros Hm Hk t. rewrite bind_run.
  destruct (Hm t) as [d1 [r1 [E1 [P1 F1]]]].
  destruct (snd (m t)) as [a|e] eqn:R.
  - rewrite (F1 (ex_intro _ a eq_refl)), app_nil_r in P1. subst p1.
    destruct (Hk a (fst (m t))) as [d2 [r2 [E2 [P2 F2]]]].
    exists (d1 ++ d2), r2. rewrite E2, P2, !app_assoc.
    split; [now rewrite E1|]. split; [reflexivity | exact F2].
  - exists d1, (r1 ++ p2). simpl. rewrite E1, P1, app_assoc.
    split; [reflexivity|]. split; [reflexivity|].
    intros [a D]. discriminate.
Qed.

Lemma performs_for_enumerate {A} (body : N -> A -> M unit) (calls : N * A -> list call)
      (xs : list A) (i : N) :
  (forall j x, performs (body j x) (calls (j, x))) ->
  performs (for_enumerate i xs body) (flat_map calls (enumerate i xs)).
Proof.
  intros H. revert i. induction xs as [|x xs IH]; intros i; simpl.
  - apply performs_ret.
  - apply performs_seq; [apply H | intros _; apply IH].
Qed.

Lemma performs_for_each {A} (body : A -> M unit) (calls : A -> list call) (xs : list A) :
  (forall x, performs (body x) (calls x)) ->
  performs (for_each xs body) (flat_map calls xs).
Proof.
  intros H. induction xs as [|x xs IH]; simpl.
  - apply performs_ret.
  - apply performs_seq; [apply H | intros _; apply IH].
Qed.

Lemma succeeds_ret {A} (a : A) : succeeds (ret a).
Proof. intros t. now exists a. Qed.

Lemma succeeds_perform (c : call) : succeeds (perform c).
Proof. intros t. now exists tt. Qed.

Lemma succeeds_engine (w : world) (c : call) :
  engine_never_fails w -> succeeds (engine w c).
Proof. intros H t. exists tt. unfold engine. simpl. now rewrite H. Qed.

Lemma succeeds_mkdir (w : world) (p : path) :
  mkdir_never_fails w -> succeeds (mkdir w p).
Proof. intros H t. exists tt. unfold mkdir. simpl. now rewrite H. Qed.

Lemma succeeds_seq {A B} (m : M A) (k : A -> M B) :
  succeeds m -> (forall a, succeeds (k a)) -> succeeds (bind m k).
Proof.
  intros Hm Hk t. rewrite bind_run. destruct (Hm t) as [a E]. rewrite E. apply Hk.
Qed.

Lemma succeeds_for_enumerate {A} (body : N -> A -> M unit) (xs : list A) (i : N) :
  (forall j x, succeeds (body j x)) -> succeeds (for_enumerate i xs body).
Proof.
  intros H. revert i. induction xs as [|x xs IH]; intros i; simpl.
  - apply succeeds_ret.
  - apply succeeds_seq; [apply H | intros _; apply IH].
Qed.

Lemma succeeds_for_each {A} (body : A -> M unit) (xs : list A) :
  (forall x, succeeds (body x)) -> succeeds (for_each xs body).
Proof.
  intros H. induction xs as [|x xs IH]; simpl.
  - apply succeeds_ret.
  - apply succeeds_seq; [apply H | intros _; apply IH].
Qed.

Lemma performs_synth_to_file (w : world) (tts : TTS) (txt : pystr)
      (speaker out_path : path) (lang : pystr) :
  performs (synth_to_file w tts txt speaker out_path (Some lang))
           [Mkdir (Parent out_path); TTS_to_file tts txt speaker (truthy_lang lang) out_path].
Proof.
  unfold synth_to_file, truthy_lang.
  apply (performs_seq _ _ [_] [_]); [apply performs_mkdir|].
  intros _. destruct (truthy lang); apply performs_engine.
Qed.

Lemma succeeds_synth_to_file (w : world) (tts : TTS) (txt : pystr)
      (speaker out_path : path) (lang : option pystr) :
  calls_never_fail w -> succeeds (synth_to_file w tts txt speaker out_path lang).
Proof.
  intros [H M]. unfold synth_to_file.
  apply succeeds_seq; [now apply succeeds_mkdir|].
  intros _. destruct (match lang with Some l => truthy l | None => false end);
    now apply succeeds_engine.
Qed.

Lemma filter_flat_map {A B} (f : B -> bool) (g : A -> list B) (l : list A) :
  filter f (flat_map g l) = flat_map (fun x => filter f (g x)) l.
Proof.
  induction l as [|a l IH]; simpl; [reflexivity|]. now rewrite filter_app, IH.
Qed.

Lemma flat_map_singleton {A B} (g : A -> B) (l : list A) :
  flat_map (fun x => [g x]) l = map g l.
Proof. induction l as [|a l IH]; simpl; [reflexivity|]. now rewrite IH. Qed.

Lemma enumerate_length {A} (xs : list A) (i : N) : length (enumerate i xs) = length xs.
Proof. revert i. induction xs as [|x xs IH]; intros i; simpl; [reflexivity|]. now rewrite IH. Qed.

Lemma since_app (t done : trace) : since t (t ++ done) = done.
Proof.
  unfold since. rewrite skipn_app, skipn_all, Nat.sub_diag. reflexivity.
Qed.

Lemma flat_map_map_length {A B C} (g : A -> B -> C) (l : list A) (ys : list B) :
  length (flat_map (fun x => map (g x) ys) l) = length l * length ys.
Proof.
  induction l as [|a l IH]; simpl; [reflexivity|].
  now rewrite length_app, length_map, IH.
Qed.

Section Runners.

Variable lower : pystr -> pystr.
Variable w : world.
Variables (tts : TTS) (speaker csv_path out_dir : path).

Lemma load_csv_lines_trace (t : trace) : fst (load_csv_lines lower w csv_path t) = t.
Proof. now rewrite load_csv_lines_unfold. Qed.

Lemma load_csv_lines_ok (t : trace) (lines : list record) :
  snd (load_csv_lines lower w csv_path t) = Ok lines ->
  load_csv_lines lower w csv_path t = (t, Ok lines).
Proof.
  rewrite load_csv_lines_unfold. cbn [snd]. now intros ->.
Qed.

Lemma performs_detailed_round (language : pystr) (total : nat) (i : N) (row : record) :
  performs
    (synth_to_file w tts (text row) speaker (Join out_dir (detailed_fname i row))
                   (Some language) ;;;
     perform (Print false (progress [Text (lit "[detailed] ")] i total
                                    (Join out_dir (detailed_fname i row)))))
    (detailed_calls tts speaker out_dir language total (i, row)).
Proof.
  apply (performs_seq _ _ [_; _] [_]).
  - apply performs_synth_to_file.
  - intros _. apply performs_perform.
Qed.

Lemma performs_advanced_round (total : nat) (i : N) (row : record) (lang : pystr) :
  performs
    (ensure_dir w (Join out_dir lang) ;;;
     synth_to_file w tts (text row) speaker
                   (Join (Join out_dir lang) (advanced_fname i row lang)) (Some lang) ;;;
     perform (Print false
       (progress [Text (lit "[advanced:"); Text lang; Text (lit "] ")] i total
                 (Join (Join out_dir lang) (advanced_fname i row lang)))))
    (advanced_calls tts speaker out_dir total (i, row) lang).
Proof.
  apply (performs_seq _ _ [_] [_; _; _]); [apply performs_mkdir|].
  intros _. apply (performs_seq _ _ [_; _] [_]).
  - apply performs_synth_to_file.
  - intros _. apply performs_perform.
Qed.

(** After a successful load, [run_detailed] issues [mkdir] for the output
    directory and then the calls of each record, in order. *)
Lemma performs_run_detailed (language : pystr) (t : trace) (lines : list record) :
  snd (load_csv_lines lower w csv_path t) = Ok lines ->
  exists done rest,
    fst (run_detailed lower w tts speaker csv_path out_dir language t) = t ++ done
    /\ Mkdir out_dir
       :: flat_map (detailed_calls tts speaker out_dir language (length lines))
                   (enumerate 1 lines)
       = done ++ rest
    /\ ((exists u, snd (run_detailed lower w tts speaker csv_path out_dir language t) = Ok u)
        -> rest = []).
Proof.
  intros L. unfold run_detailed. rewrite bind_run.
  rewrite (load_csv_lines_ok t lines L). simpl fst. simpl snd. cbv iota.
  apply (performs_seq _ _ [_] _); [apply performs_mkdir|].
  intros _. apply performs_for_enumerate. intros j x. apply performs_detailed_round.
Qed.

Lemma performs_run_advanced (languages : list pystr) (t : trace) (lines : list record) :
  snd (load_csv_lines lower w csv_path t) = Ok lines ->
  exists done rest,
    fst (run_advanced lower w tts speaker csv_path out_dir languages t) = t ++ done
    /\ flat_map (fun p => flat_map (advanced_calls tts speaker out_dir (length lines) p)
                                   languages)
                (enumerate 1 lines)
       = done ++ rest
    /\ ((exists u, snd (run_advanced lower w tts speaker csv_path out_dir languages t) = Ok u)
        -> rest = []).
Proof.
  intros L. unfold run_advanced. rewrite bind_run.
  rewrite (load_csv_lines_ok t lines L). simpl fst. simpl snd. cbv iota.
  apply performs_for_enumerate. intros j x.
  apply performs_for_each. intros lang. apply performs_advanced_round.
Qed.

Lemma succeeds_run_detailed (language : pystr) (t : trace) (lines : list record) :
  calls_never_fail w ->
  snd (load_csv_lines lower w csv_path t) = Ok lines ->
  snd (run_detailed lower w tts speaker csv_path out_dir language t) = Ok tt.
Proof.
  intros E L. unfold run_detailed. rewrite bind_run.
  rewrite (load_csv_lines_ok t lines L). simpl fst. simpl snd. cbv iota.
  match goal with |- snd (?m t) = _ => assert (S : succeeds m) end.
  { apply succeeds_seq; [apply succeeds_mkdir, E|].
    intros _. apply succeeds_for_enumerate. intros j x.
    apply succeeds_seq; [now apply succeeds_synth_to_file|].
    intros _. apply succeeds_perform. }
  destruct (S t) as [[] R]. exact R.
Qed.

Lemma succeeds_run_advanced (languages : list pystr) (t : trace) (lines : list record) :
  calls_never_fail w ->
  snd (load_csv_lines lower w csv_path t) = Ok lines ->
  snd (run_advanced lower w tts speaker csv_path out_dir languages t) = Ok tt.
Proof.
  intros E L. unfold run_advanced. rewrite bind_run.
  rewrite (load_csv_lines_ok t lines L). simpl fst. simpl snd. cbv iota.
  match goal with |- snd (?m t) = _ => assert (S : succeeds m) end.
  { apply succeeds_for_enumerate. intros j x.
    apply succeeds_for_each. intros lang.
    apply succeeds_seq; [apply succeeds_mkdir, E|].
    intros _. apply succeeds_seq; [now apply succeeds_synth_to_file|].
    intros _. apply succeeds_perform. }
  destruct (S t) as [[] R]. exact R.
Qed.

Lemma jobs_detailed (language : pystr) (total : nat) (lines : list (N * record)) :
  jobs (Mkdir out_dir :: flat_map (detailed_calls tts speaker out_dir language total) lines)
  = map (detailed_job tts speaker out_dir language) lines.
Proof.
  unfold jobs. simpl filter. rewrite filter_flat_map. apply flat_map_singleton.
Qed.

Lemma jobs_advanced (languages : list pystr) (total : nat) (lines : list (N * record)) :
  jobs (flat_map (fun p => flat_map (advanced_calls tts speaker out_dir total p) languages)
                 lines)
  = flat_map (fun p => map (advanced_job tts speaker out_dir p) languages) lines.
Proof.
  unfold jobs. rewrite filter_flat_map.
  induction lines as [|p lines IH]; simpl; [reflexivity|].
  rewrite IH. f_equal. rewrite filter_flat_map. apply flat_map_singleton.
Qed.

End Runners.

Lemma written_jobs (t : trace) : written (jobs t) = written t.
Proof.
  unfold written, jobs. induction t as [|c t IH]; simpl; [reflexivity|].
  destruct c; simpl; now rewrite IH.
Qed.

Example detailed_fname_7 :
  detailed_fname 2 {| id := lit "7"; text := lit "Hello world this is a test sentence" |}
  = lit "002_7_Hello_world_this_is_a_test.wav".
Proof. vm_compute. reflexivity. Qed.

(** C5. In the detailed runner the record at the 1-based index [i] is
    synthesized to the file [out_dir / fname], where [fname] is
    ["{i:03d}_{id}_{slug}.wav"] for the sanitized id and the slug, the
    sanitized first six words of the text, and ["{i:03d}_{id}.wav"] when the
    slug is empty.  The id ["7"] with the text
    ["Hello world this is a test sentence"] at index 2 gives
    ["002_7_Hello_world_this_is_a_test.wav"]. *)
Theorem run_detailed_filenames (lower : pystr -> pystr) (w : world) (tts : TTS)
        (speaker csv_path out_dir : path) (language : pystr) (t : trace)
        (lines : list record) (i : N) (row : record) :
  (snd (load_csv_lines lower w csv_path t) = Ok lines ->
   let run := run_detailed lower w tts speaker csv_path out_dir language t in
   let planned := map (detailed_job tts speaker out_dir language) (enumerate 1 lines) in
   (exists rest, planned = jobs (since t (fst run)) ++ rest)
   /\ (snd run = Ok tt ->
       jobs (since t (fst run)) = planned
       /\ written (since t (fst run))
          = map (fun p => Join out_dir (detailed_fname (fst p) (snd p))) (enumerate 1 lines))
   /\ (calls_never_fail w -> snd run = Ok tt))
  /\ (let rid := sanitize_filename (id row) default_max_len in
      let slug := sanitize_filename (join (lit " ") (firstn 6 (split (text row))))
                                    default_max_len in
      detailed_fname i row
      = if truthy slug
        then fmt_03d i ++ lit "_" ++ rid ++ lit "_" ++ slug ++ lit ".wav"
        else fmt_03d i ++ lit "_" ++ rid ++ lit ".wav")
  /\ detailed_fname 2 {| id := lit "7"; text := lit "Hello world this is a test sentence" |}
     = lit "002_7_Hello_world_this_is_a_test.wav".
Proof.
  split; [|split; [reflexivity | exact detailed_fname_7]].
  intros L. cbv zeta.
  destruct (performs_run_detailed lower w tts speaker csv_path out_dir language t lines L)
    as [done [rest [E [P F]]]].
  rewrite E, since_app.
  apply (f_equal jobs) in P. rewrite jobs_detailed in P.
  unfold jobs in P at 1. rewrite filter_app in P. fold (jobs done) in P. fold (jobs rest) in P.
  split; [now exists (jobs rest)|]. split.
  - intros R. rewrite (F (ex_intro _ tt R)) in P. simpl in P. rewrite app_nil_r in P.
    split; [now symmetry|].
    rewrite <- written_jobs, <- P. unfold written.
    rewrite flat_map_concat_map, map_map. simpl.
    rewrite <- flat_map_concat_map. apply flat_map_singleton.
  - intros N. now apply succeeds_run_detailed with (lines := lines).
Qed.

Lemma run_detailed_filenames_witness :
  snd (load_csv_lines (map ascii_lower) (quiet_world true csv_foo_bar) default_csv [])
  = Ok [ {| id := lit "1"; text := lit "x" |} ]
  /\ calls_never_fail (quiet_world true csv_foo_bar)
  /\ snd (run_detailed (map ascii_lower) (quiet_world true csv_foo_bar) default_tts
                       default_speaker default_csv default_outdir DEFAULT_LANGUAGE [])
     = Ok tt
  /\ written (since [] (fst (run_detailed (map ascii_lower) (quiet_world true csv_foo_bar)
                               default_tts default_speaker default_csv default_outdir
                               DEFAULT_LANGUAGE [])))
     = [Join default_outdir (lit "001_1_x.wav")].
Proof.
  assert (L : snd (load_csv_lines (map ascii_lower) (quiet_world true csv_foo_bar)
                                  default_csv [])
              = Ok [ {| id := lit "1"; text := lit "x" |} ]) by reflexivity.
  assert (N : calls_never_fail (quiet_world true csv_foo_bar))
    by (split; intros t c; reflexivity).
  pose proof (proj1 (run_detailed_filenames (map ascii_lower) (quiet_world true csv_foo_bar)
                       default_tts default_speaker default_csv default_outdir
                       DEFAULT_LANGUAGE [] [ {| id := lit "1"; text := lit "x" |} ]
                       1 {| id := lit "1"; text := lit "x" |}) L) as [_ [J R]].
  split; [exact L|]. split; [exact N|]. split; [exact (R N)|].
  exact (proj2 (J (R N))).
Defined.

(** C6. After a successful load the advanced runner synthesizes one file per
    record and language, records in order and, within a record, languages in
    the given order: (number of records) x (number of languages) jobs.  The
    file of record [i] and language [lang] is
    [out_dir / lang / "{i:03d}_{id}_{slug-or-'utt'}.{lang}.wav"].  With the
    languages ["en"], ["fr-fr"] and one record there are two files, one under
    [out_dir/en] and one under [out_dir/fr-fr]. *)
Theorem run_advanced_jobs (lower : pystr -> pystr) (w : world) (tts : TTS)
        (speaker csv_path out_dir : path) (languages : list pystr) (t : trace)
        (lines : list record) (i : N) (row : record) (lang : pystr) :
  (snd (load_csv_lines lower w csv_path t) = Ok lines ->
   let run := run_advanced lower w tts speaker csv_path out_dir languages t in
   let planned := advanced_jobs tts speaker out_dir lines languages in
   length planned = length lines * length languages
   /\ (exists rest, planned = jobs (since t (fst run)) ++ rest)
   /\ (snd run = Ok tt ->
       jobs (since t (fst run)) = planned
       /\ written (since t (fst run))
          = flat_map (fun p => map (fun l => Join (Join out_dir l)
                                                  (advanced_fname (fst p) (snd p) l))
                                   languages)
                     (enumerate 1 lines))
   /\ (calls_never_fail w -> snd run = Ok tt))
  /\ advanced_fname i row lang
     = fmt_03d i ++ lit "_" ++ sanitize_filename (id row) default_max_len ++ lit "_"
       ++ str_or (sanitize_filename (join (lit " ") (firstn 6 (split (text row))))
                                    default_max_len)
                 (lit "utt")
       ++ lit "." ++ lang ++ lit ".wav"
  /\ written (since t (fst (run_advanced (map ascii_lower) (quiet_world true csv_foo_bar)
                              tts speaker csv_path out_dir [lit "en"; lit "fr-fr"] t)))
     = [ Join (Join out_dir (lit "en")) (lit "001_1_x.en.wav");
         Join (Join out_dir (lit "fr-fr")) (lit "001_1_x.fr-fr.wav") ].
Proof.
  split; [|split; [reflexivity|]].
  - intros L. cbv zeta.
    destruct (performs_run_advanced lower w tts speaker csv_path out_dir languages t lines L)
      as [done [rest [E [P F]]]].
    rewrite E, since_app.
    apply (f_equal jobs) in P. rewrite jobs_advanced in P.
    unfold jobs in P at 1. rewrite filter_app in P.
    fold (jobs done) in P. fold (jobs rest) in P.
    fold (advanced_jobs tts speaker out_dir lines languages) in P.
    split.
    { unfold advanced_jobs. now rewrite flat_map_map_length, enumerate_length. }
    split; [now exists (jobs rest)|]. split.
    + intros R. rewrite (F (ex_intro _ tt R)) in P. simpl in P. rewrite app_nil_r in P.
      split; [now symmetry|].
      rewrite <- written_jobs, <- P. unfold written, advanced_jobs.
      generalize (enumerate 1 lines). intros l.
      induction l as [|p l IH]; simpl; [reflexivity|].
      rewrite flat_map_app, IH. f_equal.
      rewrite flat_map_concat_map, map_map. simpl.
      rewrite <- flat_map_concat_map. apply flat_map_singleton.
    + intros N. now apply succeeds_run_advanced with (lines := lines).
  - assert (L : snd (load_csv_lines (map ascii_lower) (quiet_world true csv_foo_bar)
                                    csv_path t)
                = Ok [ {| id := lit "1"; text := lit "x" |} ]) by reflexivity.
    destruct (performs_run_advanced (map ascii_lower) (quiet_world true csv_foo_bar)
                tts speaker csv_path out_dir [lit "en"; lit "fr-fr"] t _ L)
      as [done [rest [E [P F]]]].
    rewrite E, since_app.
    assert (N : calls_never_fail (quiet_world true csv_foo_bar))
      by (split; intros t' c; reflexivity).
    pose proof (succeeds_run_advanced (map ascii_lower) (quiet_world true csv_foo_bar)
                  tts speaker csv_path out_dir [lit "en"; lit "fr-fr"] t _ N L) as R.
    rewrite (F (ex_intro _ tt R)), app_nil_r in P. rewrite <- P.
    reflexivity.
Qed.

Lemma run_advanced_jobs_witness :
  snd (load_csv_lines (map ascii_lower) (quiet_world true csv_id_text) default_csv [])
  = Ok [ {| id := lit "1"; text := lit "Hello" |}; {| id := lit "3"; text := lit "World" |} ]
  /\ calls_never_fail (quiet_world true csv_id_text)
  /\ snd (run_advanced (map ascii_lower) (quiet_world true csv_id_text) default_tts
                       default_speaker default_csv default_outdir
                       [lit "en"; lit "fr-fr"; lit "pt-br"] [])
     = Ok tt
  /\ length (advanced_jobs default_tts default_speaker default_outdir
               [ {| id := lit "1"; text := lit "Hello" |};
                 {| id := lit "3"; text := lit "World" |} ]
               [lit "en"; lit "fr-fr"; lit "pt-br"])
     = 2 * 3.
Proof.
  assert (L : snd (load_csv_lines (map ascii_lower) (quiet_world true csv_id_text)
                                  default_csv [])
              = Ok [ {| id := lit "1"; text := lit "Hello" |};
                     {| id := lit "3"; text := lit "World" |} ]) by reflexivity.
  assert (N : calls_never_fail (quiet_world true csv_id_text))
    by (split; intros t c; reflexivity).
  pose proof (proj1 (run_advanced_jobs (map ascii_lower) (quiet_world true csv_id_text)
                       default_tts default_speaker default_csv default_outdir
                       [lit "en"; lit "fr-fr"; lit "pt-br"] [] _
                       1 {| id := lit "1"; text := lit "x" |} (lit "en")) L)
    as [C [_ [_ R]]].
  split; [exact L|]. split; [exact N|]. split; [exact (R N) | exact C].
Defined.

(** ** The engine handle of [main] *)

Lemma emits_ret (ok : call -> bool) {A} (a : A) : emits ok (ret a).
Proof. intros t. exists []. simpl. now rewrite app_nil_r. Qed.

Lemma emits_raise (ok : call -> bool) {A} (e : exn) : emits ok (@raise A e).
Proof. intros t. exists []. simpl. now rewrite app_nil_r. Qed.

Lemma emits_perform (ok : call -> bool) (c : call) : ok c = true -> emits ok (perform c).
Proof. intros H t. exists [c]. simpl. now rewrite H. Qed.

Lemma emits_engine (ok : call -> bool) (w : world) (c : call) :
  ok c = true -> emits ok (engine w c).
Proof. intros H t. exists [c]. simpl. now rewrite H. Qed.

Lemma emits_mkdir (ok : call -> bool) (w : world) (p : path) :
  ok (Mkdir p) = true -> emits ok (mkdir w p).
Proof. intros H t. exists [Mkdir p]. simpl. now rewrite H. Qed.

Lemma emits_bind (ok : call -> bool) {A B} (m : M A) (k : A -> M B) :
  emits ok m -> (forall a, emits ok (k a)) -> emits ok (bind m k).
Proof.
  intros Hm Hk t. rewrite bind_run. destruct (Hm t) as [d1 [E1 F1]].
  destruct (snd (m t)) as [a|e].
  - destruct (Hk a (fst (m t))) as [d2 [E2 F2]].
    exists (d1 ++ d2). rewrite E2, E1, app_assoc, forallb_app, F1, F2. auto.
  - exists d1. auto.
Qed.

Lemma emits_for_enumerate (ok : call -> bool) {A} (body : N -> A -> M unit)
      (xs : list A) (i : N) :
  (forall j x, emits ok (body j x)) -> emits ok (for_enumerate i xs body).
Proof.
  intros H. revert i. induction xs as [|x xs IH]; intros i; simpl.
  - apply emits_ret.
  - apply emits_bind; [apply H | intros _; apply IH].
Qed.

Lemma emits_for_each (ok : call -> bool) {A} (body : A -> M unit) (xs : list A) :
  (forall x, emits ok (body x)) -> emits ok (for_each xs body).
Proof.
  intros H. induction xs as [|x xs IH]; simpl.
  - apply emits_ret.
  - apply emits_bind; [apply H | intros _; apply IH].
Qed.

Lemma emits_load_csv_lines (ok : call -> bool) (lower : pystr -> pystr) (w : world)
      (csv_path : path) :
  emits ok (load_csv_lines lower w csv_path).
Proof.
  intros t. exists []. rewrite load_csv_lines_unfold. simpl. now rewrite app_nil_r.
Qed.

Lemma emits_synth_to_file (w : world) (tts : TTS) (txt : pystr) (speaker out_path : path)
      (lang : option pystr) :
  emits not_init (synth_to_file w tts txt speaker out_path lang).
Proof.
  unfold synth_to_file. apply emits_bind; [now apply emits_mkdir|].
  intros _. destruct (match lang with Some l => truthy l | None => false end);
    now apply emits_engine.
Qed.

Lemma emits_run_simple (w : world) (tts : TTS) (speaker out_dir : path) (language : pystr) :
  emits not_init (run_simple w tts speaker out_dir language).
Proof.
  unfold run_simple. apply emits_bind; [apply emits_synth_to_file|].
  intros _. now apply emits_perform.
Qed.

Lemma emits_run_detailed (lower : pystr -> pystr) (w : world) (tts : TTS)
      (speaker csv_path out_dir : path) (language : pystr) :
  emits not_init (run_detailed lower w tts speaker csv_path out_dir language).
Proof.
  unfold run_detailed. apply emits_bind; [apply emits_load_csv_lines|].
  intros lines. apply emits_bind; [now apply emits_mkdir|].
  intros _. apply emits_for_enumerate. intros j x.
  apply emits_bind; [apply emits_synth_to_file|].
  intros _. now apply emits_perform.
Qed.

Lemma emits_run_advanced (lower : pystr -> pystr) (w : world) (tts : TTS)
      (speaker csv_path out_dir : path) (languages : list pystr) :
  emits not_init (run_advanced lower w tts speaker csv_path out_dir languages).
Proof.
  unfold run_advanced. apply emits_bind; [apply emits_load_csv_lines|].
  intros lines. apply emits_for_enumerate. intros j x.
  apply emits_for_each. intros lang.
  apply emits_bind; [now apply emits_mkdir|].
  intros _. apply emits_bind; [apply emits_synth_to_file|].
  intros _. now apply emits_perform.
Qed.

Lemma init_tts_run (w : world) (model_name : pystr) (use_cpu : bool) (t : trace) :
  let tts := {| tts_model_name := model_name; tts_progress_bar := false;
                tts_gpu := negb use_cpu |} in
  init_tts w model_name use_cpu t
  = (t ++ [TTS_new tts], if engine_ok w t (TTS_new tts) then Ok tts else Raise EngineError).
Proof.
  cbv zeta. unfold init_tts, bind, engine, ret.
  now destruct (engine_ok w t _).
Qed.

Lemma use_cpu_of_true (a : args) : use_cpu_of a = true.
Proof. unfold use_cpu_of. now destruct (cpu a). Qed.

Lemma no_init_filter (done : trace) :
  forallb not_init done = true -> filter is_init done = [].
Proof.
  induction done as [|c done IH]; simpl; [reflexivity|].
  unfold not_init at 1. intros H. apply andb_true_iff in H as [H1 H2].
  destruct (is_init c); [discriminate | now apply IH].
Qed.

(** The engine handles [main] creates: one, on the CPU, when the speaker file
    exists, and none otherwise. *)
Lemma main_inits (lower : pystr -> pystr) (w : world) (a : args) (t : trace) :
  filter is_init (since t (fst (main lower w a t)))
  = if path_exists w t (speaker_wav a)
    then [TTS_new {| tts_model_name := model a; tts_progress_bar := false;
                     tts_gpu := false |}]
    else [].
Proof.
  unfold main. rewrite bind_run.
  change (exists_ w (speaker_wav a) t) with (t, @Ok bool (path_exists w t (speaker_wav a))).
  cbn [fst snd].
  destruct (path_exists w t (speaker_wav a)); cbn [negb].
  - rewrite bind_run.
    match goal with |- context [perform ?c t] =>
      change (perform c t) with (t ++ [c], Ok tt)
    end.
    cbn [fst snd].
    rewrite bind_run, init_tts_run. cbv zeta. cbn [fst snd].
    rewrite use_cpu_of_true. cbn [negb].
    destruct (engine_ok w _ _).
    + match goal with |- context [fst (?m (?u ++ [TTS_new ?h]))] =>
        assert (E : emits not_init m)
      end.
      { apply emits_bind; [now apply emits_mkdir|].
        intros _. apply emits_bind.
        - destruct (variant a).
          + apply emits_run_simple.
          + apply emits_run_detailed.
          + destruct (negb (truthy (parse_langs (langs a)))).
            * apply emits_bind; [now apply emits_perform | intros _; apply emits_raise].
            * apply emits_run_advanced.
        - intros _. now apply emits_perform. }
      match goal with |- context [fst (?m (?u ++ [TTS_new ?h]))] =>
        destruct (E (u ++ [TTS_new h])) as [done [D F]]
      end.
      rewrite D, <- !app_assoc, since_app. simpl.
      now rewrite (no_init_filter done F).
    + cbn [fst]. rewrite <- app_assoc, since_app. reflexivity.
  - rewrite bind_run.
    match goal with |- context [perform ?c t] =>
      change (perform c t) with (t ++ [c], Ok tt)
    end.
    cbn [fst snd]. unfold raise. cbn [fst].
    rewrite since_app. reflexivity.
Qed.

(** C8. Whatever the arguments, [main] creates the engine with
    [use_cpu=True], that is [gpu=False]: the handle it creates does not depend
    on [--cpu], and two runs that differ only in that flag create the
    engine with the same settings. *)
Theorem cpu_flag_ignored (lower : pystr -> pystr) (w : world) (a : args) (t : trace)
        (b : bool) :
  let tts := {| tts_model_name := model a; tts_progress_bar := false; tts_gpu := false |} in
  let inits := fun x : args => filter is_init (since t (fst (main lower w x t))) in
  use_cpu_of a = true
  /\ init_tts w (model a) (use_cpu_of a) t
     = (t ++ [TTS_new tts], if engine_ok w t (TTS_new tts) then Ok tts else Raise EngineError)
  /\ inits a = (if path_exists w t (speaker_wav a) then [TTS_new tts] else [])
  /\ inits (with_cpu b a) = inits a.
Proof.
  cbv zeta.
  split; [apply use_cpu_of_true|].
  split; [rewrite init_tts_run, use_cpu_of_true; reflexivity|].
  split; [apply main_inits|].
  rewrite !main_inits. reflexivity.
Qed.

(** * Further properties of the script *)

(** ** The sanitizer beyond the default length *)

Lemma sanitize_filename_cleaned (name : pystr) (max_len : Z) :
  sanitize_filename name max_len
  = if truthy (cleaned name) then slice_to max_len (cleaned name) else lit "utt".
Proof. reflexivity. Qed.

Lemma cleaned_words (name : pystr) :
  cleaned name = filter is_safe (join (lit "_") (split name)).
Proof. unfold cleaned, sub_unsafe. now rewrite sub_spaces_strip. Qed.

Lemma slice_to_nil (n : Z) (s : pystr) :
  s <> [] ->
  (slice_to n s = [] <-> (n = 0 \/ (n < 0 /\ Z.of_nat (length s) <= - n))%Z).
Proof.
  intros Hs. unfold slice_to. destruct (0 <=? n)%Z eqn:E.
  - apply Z.leb_le in E. destruct s as [|c s]; [congruence|].
    destruct (Z.to_nat n) as [|k] eqn:K; simpl.
    + split; [intros _; left; lia | reflexivity].
    + split; [discriminate | intros [H|[H _]]; lia].
  - apply Z.leb_gt in E. destruct s as [|c s]; [congruence|].
    destruct (length (c :: s) - Z.to_nat (- n)) as [|k] eqn:K.
    + simpl firstn. split; [intros _; right; lia | reflexivity].
    + simpl firstn. split; [discriminate|]. intros [H|[_ H]]; lia.
Qed.

(** Only the words of a name matter: names with the same whitespace-separated
    words, such as a name and its trimmed form, sanitize alike at every
    maximum length. *)
Theorem sanitize_filename_words (a b : pystr) (max_len : Z) :
  (split a = split b -> sanitize_filename a max_len = sanitize_filename b max_len)
  /\ sanitize_filename (strip a) max_len = sanitize_filename a max_len
  /\ cleaned a = filter is_safe (join (lit "_") (split a)).
Proof.
  split; [|split].
  - intros H. now rewrite !sanitize_filename_cleaned, !cleaned_words, H.
  - rewrite !sanitize_filename_cleaned. unfold cleaned. now rewrite strip_idem.
  - apply cleaned_words.
Qed.

Lemma sanitize_filename_words_witness :
  split (lit "  big   red  fox ") = split (lit "big red fox")
  /\ sanitize_filename (lit "  big   red  fox ") 7 = sanitize_filename (lit "big red fox") 7.
Proof.
  assert (H : split (lit "  big   red  fox ") = split (lit "big red fox")) by reflexivity.
  split; [exact H|].
  exact (proj1 (sanitize_filename_words (lit "  big   red  fox ") (lit "big red fox") 7) H).
Defined.

(** At any maximum length the result has only characters of
    [[A-Za-z0-9._-]]; for a non-negative maximum it has at most
    [max(max_len, 3)] characters; it is never empty for a positive maximum,
    and it is empty exactly when some character survives the cleaning and the
    slice [name[:max_len]] keeps none of them. *)
Theorem sanitize_filename_any_length (name : pystr) (max_len : Z) :
  let out := sanitize_filename name max_len in
  safe_str out
  /\ ((0 <= max_len)%Z -> length out <= Z.to_nat (Z.max max_len 3))
  /\ ((0 < max_len)%Z -> out <> [])
  /\ (out = [] <->
      cleaned name <> []
      /\ (max_len = 0 \/ (max_len < 0 /\ Z.of_nat (length (cleaned name)) <= - max_len))%Z).
Proof.
  cbv zeta. split; [apply sanitize_filename_safe|]. split; [|split].
  - intros H. rewrite sanitize_filename_cleaned.
    destruct (truthy (cleaned name)).
    + pose proof (slice_to_length max_len (cleaned name) H). lia.
    + simpl. lia.
  - intros H. now apply truthy_true, sanitize_filename_truthy.
  - rewrite sanitize_filename_cleaned.
    destruct (cleaned name) as [|c u] eqn:C; simpl truthy; cbv iota.
    + split; [discriminate | intros [H _]; congruence].
    + rewrite slice_to_nil by discriminate.
      split; [intros H; split; [discriminate | exact H] | tauto].
Qed.

Lemma sanitize_filename_any_length_witness :
  (0 <= 0)%Z
  /\ length (sanitize_filename (lit "a b") 0) <= Z.to_nat (Z.max 0 3)
  /\ (0 < 2)%Z
  /\ sanitize_filename (lit "a b") 2 <> [].
Proof.
  assert (A : (0 <= 0)%Z) by lia.
  assert (B : (0 < 2)%Z) by lia.
  split; [exact A|].
  split; [exact (proj1 (proj2 (sanitize_filename_any_length (lit "a b") 0)) A)|].
  split; [exact B|].
  exact (proj1 (proj2 (proj2 (sanitize_filename_any_length (lit "a b") 2))) B).
Defined.

(** ** Words and slugs *)

Lemma split_from_app_word (cur w s : pystr) :
  forallb (fun c => negb (isspace c)) w = true ->
  split_from cur (w ++ s) = split_from (cur ++ w) s.
Proof.
  revert cur. induction w as [|c w IH]; intros cur H; simpl.
  - now rewrite app_nil_r.
  - simpl in H. apply andb_true_iff in H as [Hc Hw].
    apply negb_true_iff in Hc. rewrite Hc.
    rewrite IH by exact Hw. now rewrite <- app_assoc.
Qed.

Lemma split_from_space (cur s : pystr) (c : codepoint) :
  isspace c = true ->
  split_from cur (c :: s) = if truthy cur then cur :: split_from [] s else split_from [] s.
Proof. intros H. simpl. now rewrite H. Qed.

Lemma split_from_is_word (s cur : pystr) :
  forallb (fun c => negb (isspace c)) cur = true ->
  Forall is_word (split_from cur s).
Proof.
  revert cur. induction s as [|c s IH]; intros cur H; simpl.
  - destruct cur as [|d u]; simpl; constructor; [|constructor].
    split; [discriminate | exact H].
  - destruct (isspace c) eqn:E.
    + destruct cur as [|d u]; simpl.
      * now apply IH.
      * constructor; [split; [discriminate | exact H] | now apply IH].
    + apply IH. rewrite forallb_app, H. simpl. now rewrite E.
Qed.

Lemma split_is_word (s : pystr) : Forall is_word (split s).
Proof. now apply split_from_is_word. Qed.

Lemma split_join_words (ws : list pystr) :
  Forall is_word ws -> split (join (lit " ") ws) = ws.
Proof.
  unfold split. induction 1 as [|w ws [Hne Hw] Hws IH]; [reflexivity|].
  rewrite join_cons. destruct ws as [|v vs]; simpl truthy; cbv iota.
  - rewrite <- (app_nil_r w) at 1. rewrite split_from_app_word by exact Hw.
    simpl. destruct w; [congruence | reflexivity].
  - rewrite split_from_app_word by exact Hw. simpl app at 1.
    change (lit " " ++ join (lit " ") (v :: vs)) with (32%N :: join (lit " ") (v :: vs)).
    rewrite split_from_space by reflexivity.
    rewrite IH. destruct w; [congruence | reflexivity].
Qed.

Lemma Forall_firstn {A} (P : A -> Prop) (n : nat) (l : list A) :
  Forall P l -> Forall P (firstn n l).
Proof.
  intros H. rewrite <- (firstn_skipn n l) in H. now apply Forall_app in H.
Qed.

(** The slug is made of the first six words of the text: they are joined by
    underscores, the characters outside [[A-Za-z0-9._-]] are dropped, at most
    100 characters are kept, and ["utt"] stands in when nothing is left.
    Splitting is undone by joining with blanks, so a seventh and later word
    never reach the slug. *)
Theorem slug_of_first_words (text other : pystr) :
  split (join (lit " ") (firstn 6 (split text))) = firstn 6 (split text)
  /\ slug_of text
     = (let kept := firstn 100 (filter is_safe (join (lit "_") (firstn 6 (split text)))) in
        if truthy kept then kept else lit "utt")
  /\ (firstn 6 (split text) = firstn 6 (split other) -> slug_of text = slug_of other).
Proof.
  assert (R : split (join (lit " ") (firstn 6 (split text))) = firstn 6 (split text))
    by (apply split_join_words, Forall_firstn, split_is_word).
  split; [exact R|]. split.
  - unfold slug_of.
    rewrite sanitize_filename_as_spec by reflexivity.
    unfold sanitize_spec. rewrite sub_spaces_strip, R. reflexivity.
  - intros H. unfold slug_of. now rewrite H.
Qed.

Lemma slug_of_first_words_witness :
  firstn 6 (split (lit "one two three four five six seven"))
  = firstn 6 (split (lit " one two three  four five six eight nine"))
  /\ slug_of (lit "one two three four five six seven")
     = slug_of (lit " one two three  four five six eight nine").
Proof.
  assert (H : firstn 6 (split (lit "one two three four five six seven"))
              = firstn 6 (split (lit " one two three  four five six eight nine")))
    by (vm_compute; reflexivity).
  split; [exact H|].
  exact (proj2 (proj2 (slug_of_first_words (lit "one two three four five six seven")
                         (lit " one two three  four five six eight nine"))) H).
Defined.

(** ** Decimal indices in file names *)

Lemma lit_cons (a : ascii) (s : string) : lit (String a s) = ord a :: lit s.
Proof. reflexivity. Qed.

Lemma string_of_uint_digits (d : Decimal.uint) :
  forallb is_digit (lit (NilEmpty.string_of_uint d)) = true.
Proof. induction d; simpl; auto. Qed.

Lemma str_of_N_digits (n : N) : forallb is_digit (str_of_N n) = true.
Proof. apply string_of_uint_digits. Qed.

Lemma read_index_digit (c : codepoint) (acc : N) (s : pystr) :
  is_digit c = true ->
  read_index acc (c :: s) = read_index (acc * 10 + (c - ord "0")) s.
Proof. intros H. simpl. now rewrite H. Qed.

Lemma read_index_uint (d : Decimal.uint) (acc : N) (rest : pystr) :
  read_index acc (lit (NilEmpty.string_of_uint d) ++ rest)
  = read_index (uint_value d acc) rest.
Proof.
  revert acc. induction d; intros acc; cbn [NilEmpty.string_of_uint uint_value];
    [reflexivity | rewrite lit_cons; cbn [app]; rewrite read_index_digit by reflexivity;
                   rewrite <- IHd; f_equal;
                   match goal with
                   | |- context [(ord ?a - ord "0")%N] =>
                       let v := eval vm_compute in (ord a - ord "0")%N in
                       change (ord a - ord "0")%N with v
                   end; lia ..].
Qed.

Lemma uint_value_pos (d : Decimal.uint) (p : positive) :
  uint_value d (N.pos p) = N.pos (Pos.of_uint_acc d p).
Proof.
  revert p. induction d; intros p; cbn [uint_value Pos.of_uint_acc];
    [reflexivity | rewrite <- IHd; f_equal; lia ..].
Qed.

Lemma uint_value_zero (d : Decimal.uint) : uint_value d 0 = N.of_uint d.
Proof.
  unfold N.of_uint.
  induction d; cbn [uint_value Pos.of_uint]; [reflexivity | exact IHd | apply uint_value_pos ..].
Qed.

(** The decimal form of a number reads back as the number. *)
Lemma read_index_str_of_N (n : N) (rest : pystr) :
  read_index 0 (str_of_N n ++ rest) = read_index n rest.
Proof.
  unfold str_of_N. rewrite read_index_uint, uint_value_zero.
  now rewrite DecimalN.Unsigned.of_to.
Qed.

Lemma read_index_zeros (k : nat) (s : pystr) :
  read_index 0 (repeat (ord "0") k ++ s) = read_index 0 s.
Proof. induction k as [|k IH]; [reflexivity | exact IH]. Qed.

Lemma read_index_fmt_03d (i : N) (c : codepoint) (rest : pystr) :
  is_digit c = false -> read_index 0 (fmt_03d i ++ c :: rest) = i.
Proof.
  intros H. unfold fmt_03d. cbv zeta.
  rewrite <- app_assoc, read_index_zeros, read_index_str_of_N. simpl. now rewrite H.
Qed.

Lemma str_of_N_inj (m n : N) : str_of_N m = str_of_N n -> m = n.
Proof.
  intros H. apply (f_equal (fun s => read_index 0 (s ++ []))) in H.
  now rewrite !read_index_str_of_N in H.
Qed.

Lemma str_of_N_not_nil (n : N) : str_of_N n <> [].
Proof.
  intros H. pose proof (read_index_str_of_N n []) as R.
  rewrite H in R. simpl in R. subst n. discriminate H.
Qed.

Lemma digit_is_safe (c : codepoint) : is_digit c = true -> is_safe c = true.
Proof.
  unfold is_safe, is_digit. intros ->. now rewrite !orb_true_r.
Qed.

Lemma safe_str_app (a b : pystr) : safe_str (a ++ b) <-> safe_str a /\ safe_str b.
Proof. apply Forall_app. Qed.

Lemma fmt_03d_safe (i : N) : safe_str (fmt_03d i).
Proof.
  unfold fmt_03d. cbv zeta. apply safe_str_app. split.
  - apply Forall_forall. intros c Hc. apply repeat_spec in Hc. now subst.
  - apply Forall_forall. intros c Hc. apply digit_is_safe.
    pose proof (str_of_N_digits i) as D. rewrite forallb_forall in D. now apply D.
Qed.

Lemma safe_no_separator (s : pystr) (c : codepoint) :
  safe_str s -> In c s -> c <> ord "/" /\ isspace c = false.
Proof.
  intros H Hc. unfold safe_str in H. rewrite Forall_forall in H.
  specialize (H c Hc). split; [|now apply safe_not_space].
  intros ->. discriminate H.
Qed.

(** Every file name of the detailed runner is made of characters of
    [[A-Za-z0-9._-]] only, so it holds no path separator and no whitespace;
    it is at most 206 characters longer than its index.  The file name of the
    advanced runner is of that kind exactly when the language code is: the
    code is the one part that is not sanitized. *)
Theorem output_names_safe (i : N) (row : record) (lang : pystr) :
  safe_str (detailed_fname i row)
  /\ (forall c, In c (detailed_fname i row) -> c <> ord "/" /\ isspace c = false)
  /\ length (detailed_fname i row) <= length (fmt_03d i) + 206
  /\ (safe_str (advanced_fname i row lang) <-> safe_str lang).
Proof.
  pose proof (sanitize_filename_safe (id row) default_max_len) as Sid.
  pose proof (sanitize_filename_safe (join (lit " ") (firstn 6 (split (text row))))
                                     default_max_len) as Sslug.
  fold (slug_of (text row)) in Sslug.
  assert (U : safe_str (lit "_")) by (repeat constructor).
  assert (W : safe_str (lit ".wav")) by (repeat constructor).
  assert (P : safe_str (lit ".")) by (repeat constructor).
  assert (D : safe_str (detailed_fname i row)).
  { pose proof (fmt_03d_safe i) as F.
    unfold detailed_fname. cbv zeta. destruct (truthy _);
      rewrite !safe_str_app; tauto. }
  split; [exact D|]. split; [intros c; now apply safe_no_separator|]. split.
  - assert (B : (3 <= default_max_len)%Z) by (unfold default_max_len; lia).
    pose proof (sanitize_filename_length (id row) default_max_len B) as L1.
    pose proof (sanitize_filename_length (join (lit " ") (firstn 6 (split (text row))))
                                         default_max_len B) as L2.
    fold (slug_of (text row)) in L2.
    change (Z.to_nat default_max_len) with 100 in L1, L2.
    unfold detailed_fname. cbv zeta.
    generalize dependent (slug_of (text row)).
    generalize dependent (sanitize_filename (id row) default_max_len).
    intros rid _ L1 slug _ L2.
    destruct (truthy slug); rewrite !length_app;
      change (length (lit "_")) with 1; change (length (lit ".wav")) with 4; lia.
  - unfold advanced_fname. cbv zeta. rewrite !safe_str_app.
    assert (O : safe_str (str_or (slug_of (text row)) (lit "utt"))).
    { unfold str_or. destruct (truthy _); [exact Sslug | apply utt_safe]. }
    pose proof (fmt_03d_safe i). tauto.
Qed.

(** The index can be read back from a file name, so the files of different
    records never share a name, in the detailed runner and, for one
    language, in the advanced runner. *)
Theorem output_names_distinct (i j : N) (row row' : record) (lang : pystr) :
  read_index 0 (detailed_fname i row) = i
  /\ read_index 0 (advanced_fname i row lang) = i
  /\ (i <> j -> detailed_fname i row <> detailed_fname j row'
                /\ advanced_fname i row lang <> advanced_fname j row' lang).
Proof.
  assert (A : forall k r, read_index 0 (detailed_fname k r) = k).
  { intros k r. unfold detailed_fname. cbv zeta.
    destruct (truthy _); apply read_index_fmt_03d; reflexivity. }
  assert (B : forall k r, read_index 0 (advanced_fname k r lang) = k).
  { intros k r. unfold advanced_fname. cbv zeta. apply read_index_fmt_03d. reflexivity. }
  split; [apply A|]. split; [apply B|].
  intros N. split; intros E; apply N.
  - now rewrite <- (A i row), E, A.
  - now rewrite <- (B i row), E, B.
Qed.

Lemma output_names_distinct_witness :
  (1 <> 2)%N
  /\ detailed_fname 1 {| id := lit "a"; text := lit "same" |}
     <> detailed_fname 2 {| id := lit "a"; text := lit "same" |}.
Proof.
  assert (N : (1 <> 2)%N) by discriminate.
  split; [exact N|].
  exact (proj1 (proj2 (proj2 (output_names_distinct 1 2
           {| id := lit "a"; text := lit "same" |}
           {| id := lit "a"; text := lit "same" |} (lit "en"))) N)).
Defined.

Lemma output_names_safe_witness :
  In (ord "x") (detailed_fname 1 {| id := lit "1"; text := lit "x/y z" |})
  /\ ord "x" <> ord "/"
  /\ safe_str (lit "fr-fr")
  /\ safe_str (advanced_fname 1 {| id := lit "1"; text := lit "x/y z" |} (lit "fr-fr")).
Proof.
  assert (I : In (ord "x") (detailed_fname 1 {| id := lit "1"; text := lit "x/y z" |}))
    by (vm_compute; tauto).
  assert (S : safe_str (lit "fr-fr")) by (repeat constructor).
  pose proof (output_names_safe 1 {| id := lit "1"; text := lit "x/y z" |} (lit "fr-fr"))
    as [_ [A [_ B]]].
  split; [exact I|]. split; [exact (proj1 (A _ I))|]. split; [exact S|].
  exact (proj2 B S).
Defined.

(** ** The language list of [main] *)

Lemma split_on_from_no_sep (sep : codepoint) (s cur : pystr) :
  ~ In sep cur -> Forall (fun piece => ~ In sep piece) (split_on_from sep cur s).
Proof.
  revert cur. induction s as [|c s IH]; intros cur H; simpl.
  - now constructor.
  - destruct (c =? sep)%N eqn:E.
    + constructor; [exact H | apply IH; intros []].
    + apply IH. intros I. apply in_app_or in I as [I|[I|[]]]; [now apply H|].
      subst c. now rewrite N.eqb_refl in E.
Qed.

Lemma split_on_from_app (sep : codepoint) (w s cur : pystr) :
  ~ In sep w -> split_on_from sep cur (w ++ s) = split_on_from sep (cur ++ w) s.
Proof.
  revert cur. induction w as [|c w IH]; intros cur H; simpl.
  - now rewrite app_nil_r.
  - replace (c =? sep)%N with false.
    + rewrite IH by (intros I; apply H; now right). now rewrite <- app_assoc.
    + symmetry. apply N.eqb_neq. intros ->. apply H. now left.
Qed.

Lemma split_on_join (sep : codepoint) (ls : list pystr) :
  ls <> [] -> Forall (fun l => ~ In sep l) ls -> split_on sep (join [sep] ls) = ls.
Proof.
  unfold split_on. intros Hne H. revert Hne.
  induction H as [|l ls Hl Hls IH]; intros Hne; [now destruct Hne|].
  rewrite join_cons. destruct ls as [|k ks]; simpl truthy; cbv iota.
  - rewrite <- (app_nil_r l) at 1. now rewrite split_on_from_app.
  - rewrite split_on_from_app by exact Hl. simpl. rewrite N.eqb_refl.
    f_equal. apply IH. discriminate.
Qed.

Lemma strip_sublist (l : pystr) (c : codepoint) : In c (strip l) -> In c l.
Proof.
  intros H. destruct (strip_decompose l) as [a [b [E _]]]. rewrite E.
  apply in_or_app. right. apply in_or_app. now left.
Qed.

(** The language codes [main] passes to the advanced runner are never empty,
    carry no surrounding whitespace and no comma; so each of them reaches the
    engine as its [language] argument.  The list is empty exactly when every
    piece between commas is blank. *)
Theorem parse_langs_clean (langs l : pystr) :
  (In l (parse_langs langs) -> clean_lang l /\ truthy_lang l = Some l)
  /\ (parse_langs langs = [] <->
      forall piece, In piece (split_on (ord ",") langs) -> strip piece = []).
Proof.
  split.
  - unfold parse_langs. intros H. apply in_map_iff in H as [piece [<- H]].
    apply filter_In in H as [H T].
    assert (C : clean_lang (strip piece)).
    { split; [now apply truthy_true|]. split; [apply strip_idem|].
      intros I. apply strip_sublist in I.
      pose proof (split_on_from_no_sep (ord ",") langs [] (fun x => x)) as F.
      rewrite Forall_forall in F. now apply (F piece). }
    split; [exact C|]. unfold truthy_lang. now rewrite T.
  - unfold parse_langs. split.
    + intros E piece I. apply map_eq_nil in E.
      destruct (strip piece) as [|c u] eqn:S; [reflexivity|].
      assert (K : In piece (filter (fun l0 => truthy (strip l0)) (split_on (ord ",") langs))).
      { apply filter_In. split; [exact I | now rewrite S]. }
      rewrite E in K. destruct K.
    + intros H. induction (split_on (ord ",") langs) as [|p ps IH]; [reflexivity|].
      simpl. rewrite (H p) by (now left). simpl. apply IH.
      intros q Hq. apply H. now right.
Qed.

Lemma parse_langs_clean_witness :
  In (lit "fr-fr") (parse_langs (lit " en , fr-fr ,,"))
  /\ clean_lang (lit "fr-fr")
  /\ truthy_lang (lit "fr-fr") = Some (lit "fr-fr").
Proof.
  assert (I : In (lit "fr-fr") (parse_langs (lit " en , fr-fr ,,")))
    by (vm_compute; tauto).
  split; [exact I|].
  exact (proj1 (parse_langs_clean (lit " en , fr-fr ,,") (lit "fr-fr")) I).
Defined.

(** Writing language codes with commas between them and parsing the result
    gives the codes back, provided each code is non-empty, trimmed and free of
    commas. *)
Theorem parse_langs_join (ls : list pystr) :
  Forall clean_lang ls -> parse_langs (join (lit ",") ls) = ls.
Proof.
  intros H. unfold parse_langs. destruct ls as [|l ls]; [reflexivity|].
  change (lit ",") with [ord ","].
  rewrite split_on_join.
  - assert (F : forall xs, Forall clean_lang xs ->
                  map strip (filter (fun l0 => truthy (strip l0)) xs) = xs).
    { induction 1 as [|x xs [Hne [Hs Hc]] Hxs IH]; [reflexivity|].
      simpl. rewrite Hs. apply truthy_true in Hne. rewrite Hne. simpl.
      now rewrite Hs, IH. }
    now apply F.
  - discriminate.
  - eapply Forall_impl; [|exact H]. intros a [_ [_ C]]. exact C.
Qed.

Lemma parse_langs_join_witness :
  Forall clean_lang [lit "en"; lit "fr-fr"; lit "pt-br"]
  /\ parse_langs (join (lit ",") [lit "en"; lit "fr-fr"; lit "pt-br"])
     = [lit "en"; lit "fr-fr"; lit "pt-br"].
Proof.
  assert (C : forall s, s <> [] -> strip s = s -> existsb (N.eqb (ord ",")) s = false ->
                        clean_lang s).
  { intros s A B D. split; [exact A|]. split; [exact B|].
    intros I. assert (E : existsb (N.eqb (ord ",")) s = true).
    { apply existsb_exists. exists (ord ","). split; [exact I | apply N.eqb_refl]. }
    congruence. }
  assert (F : Forall clean_lang [lit "en"; lit "fr-fr"; lit "pt-br"]).
  { repeat constructor; apply C; solve [discriminate | vm_compute; reflexivity]. }
  split; [exact F | exact (parse_langs_join _ F)].
Defined.

(** ** Runs of the dispatcher, the runners and [main] *)

Lemma synth_to_file_run (w : world) (tts : TTS) (txt : pystr) (speaker out_path : path)
      (language : option pystr) (t : trace) :
  synth_to_file w tts txt speaker out_path language t
  = let job := TTS_to_file tts txt speaker
                 (match language with Some l => truthy_lang l | None => None end) out_path in
    match mkdir_error w t (Parent out_path) with
    | Some e => (t ++ [Mkdir (Parent out_path)], Raise e)
    | None =>
        (t ++ [Mkdir (Parent out_path); job],
         if engine_ok w (t ++ [Mkdir (Parent out_path)]) job then Ok tt else Raise EngineError)
    end.
Proof.
  unfold synth_to_file, bind, mkdir, engine, truthy_lang. cbv zeta.
  destruct (mkdir_error w t (Parent out_path)); [reflexivity|].
  destruct language as [l|]; [destruct (truthy l)|]; cbv iota;
    rewrite <- app_assoc; reflexivity.
Qed.

(** [synth_to_file] first asks for the parent directory of the output file.
    If that raises, the exception is the outcome and the engine is not
    called.  Otherwise exactly one engine call follows; an empty language
    code is treated like a missing one and is not passed on, and the call
    returns exactly when the engine accepts the job. *)
Theorem synth_to_file_calls (w : world) (tts : TTS) (txt : pystr) (speaker out_path : path)
        (language : option pystr) (t : trace) (e : exn) :
  (mkdir_error w t (Parent out_path) = Some e ->
   synth_to_file w tts txt speaker out_path language t
   = (t ++ [Mkdir (Parent out_path)], Raise e))
  /\ (mkdir_error w t (Parent out_path) = None ->
      exists l, fst (synth_to_file w tts txt speaker out_path language t)
                = t ++ [Mkdir (Parent out_path); TTS_to_file tts txt speaker l out_path]
                /\ l <> Some []
                /\ (snd (synth_to_file w tts txt speaker out_path language t) = Ok tt
                    <-> engine_ok w (t ++ [Mkdir (Parent out_path)])
                                  (TTS_to_file tts txt speaker l out_path) = true)
                /\ (snd (synth_to_file w tts txt speaker out_path language t)
                    = Raise EngineError
                    <-> engine_ok w (t ++ [Mkdir (Parent out_path)])
                                  (TTS_to_file tts txt speaker l out_path) = false))
  /\ synth_to_file w tts txt speaker out_path (Some []) t
     = synth_to_file w tts txt speaker out_path None t.
Proof.
  split; [|split].
  - intros H. now rewrite synth_to_file_run, H.
  - intros H. rewrite synth_to_file_run, H. cbv zeta. cbn [fst snd].
    eexists. split; [reflexivity|]. split.
    + destruct language as [[|c l]|]; discriminate.
    + destruct (engine_ok w _ _); split; split; congruence.
  - now rewrite !synth_to_file_run.
Qed.

Lemma synth_to_file_calls_witness :
  (mkdir_error blocked_world [] (Parent (Join default_outdir (lit "a.wav")))
   = Some FileExistsError
   /\ synth_to_file blocked_world default_tts (lit "Hi") default_speaker
                    (Join default_outdir (lit "a.wav")) (Some (lit "en")) []
      = ([Mkdir (Parent (Join default_outdir (lit "a.wav")))], Raise FileExistsError))
  /\ (mkdir_error (quiet_world true []) [] (Parent (Join default_outdir (lit "a.wav"))) = None
      /\ exists l,
           fst (synth_to_file (quiet_world true []) default_tts (lit "Hi") default_speaker
                              (Join default_outdir (lit "a.wav")) (Some []) [])
           = [Mkdir (Parent (Join default_outdir (lit "a.wav")));
              TTS_to_file default_tts (lit "Hi") default_speaker l
                          (Join default_outdir (lit "a.wav"))]
           /\ l <> Some []).
Proof.
  split.
  - split; [reflexivity|].
    exact (proj1 (synth_to_file_calls blocked_world default_tts (lit "Hi") default_speaker
                    (Join default_outdir (lit "a.wav")) (Some (lit "en")) [] FileExistsError)
             eq_refl).
  - split; [reflexivity|].
    destruct (proj1 (proj2 (synth_to_file_calls (quiet_world true []) default_tts (lit "Hi")
                              default_speaker (Join default_outdir (lit "a.wav")) (Some []) []
                              FileExistsError)) eq_refl) as [l [F [N _]]].
    exists l. split; [exact F | exact N].
Defined.

Lemma runners_load_error (lower : pystr -> pystr) (w : world) (tts : TTS)
      (speaker csv_path out_dir : path) (language : pystr) (languages : list pystr)
      (t : trace) (e : exn) :
  snd (load_csv_lines lower w csv_path t) = Raise e ->
  run_detailed lower w tts speaker csv_path out_dir language t = (t, Raise e)
  /\ run_advanced lower w tts speaker csv_path out_dir languages t = (t, Raise e).
Proof.
  intros H. unfold run_detailed, run_advanced. rewrite !bind_run, H.
  now rewrite load_csv_lines_trace.
Qed.

(** When the CSV cannot be loaded, the detailed and the advanced runner raise
    the loader's exception and have called nothing: no directory is created
    and the engine is not used. *)
Theorem runners_stop_on_load_error (lower : pystr -> pystr) (w : world) (tts : TTS)
        (speaker csv_path out_dir : path) (language : pystr) (languages : list pystr)
        (t : trace) (e : exn) :
  snd (load_csv_lines lower w csv_path t) = Raise e ->
  run_detailed lower w tts speaker csv_path out_dir language t = (t, Raise e)
  /\ run_advanced lower w tts speaker csv_path out_dir languages t = (t, Raise e).
Proof. apply runners_load_error. Qed.

Lemma runners_stop_on_load_error_witness :
  snd (load_csv_lines (map ascii_lower) (quiet_world false []) default_csv [])
  = Raise (FileNotFoundError default_csv)
  /\ run_detailed (map ascii_lower) (quiet_world false []) default_tts default_speaker
                  default_csv default_outdir DEFAULT_LANGUAGE []
     = ([], Raise (FileNotFoundError default_csv))
  /\ run_advanced (map ascii_lower) (quiet_world false []) default_tts default_speaker
                  default_csv default_outdir [lit "en"] []
     = ([], Raise (FileNotFoundError default_csv)).
Proof.
  assert (H : snd (load_csv_lines (map ascii_lower) (quiet_world false []) default_csv [])
              = Raise (FileNotFoundError default_csv)) by reflexivity.
  split; [exact H|].
  exact (runners_stop_on_load_error (map ascii_lower) (quiet_world false []) default_tts
           default_speaker default_csv default_outdir DEFAULT_LANGUAGE [lit "en"] []
           (FileNotFoundError default_csv) H).
Defined.

(** [main], step by step up to the loading of the engine. *)
Lemma main_unfold (lower : pystr -> pystr) (w : world) (a : args) (t : trace) :
  main lower w a t
  = if path_exists w t (speaker_wav a)
    then if engine_ok w (t ++ [loading_line a]) (TTS_new (handle_of a))
         then main_body lower w a (handle_of a) (t ++ [loading_line a; TTS_new (handle_of a)])
         else (t ++ [loading_line a; TTS_new (handle_of a)], Raise EngineError)
    else (t ++ [speaker_error_line a], Raise (SystemExit 1)).
Proof.
  unfold main. rewrite bind_run.
  change (exists_ w (speaker_wav a) t) with (t, @Ok bool (path_exists w t (speaker_wav a))).
  cbn [fst snd].
  destruct (path_exists w t (speaker_wav a)); cbn [negb].
  - rewrite bind_run.
    match goal with |- context [perform ?c t] =>
      change (perform c t) with (t ++ [loading_line a], @Ok unit tt)
    end.
    cbn [fst snd]. rewrite bind_run, init_tts_run. cbv zeta. cbn [fst snd].
    rewrite use_cpu_of_true. cbn [negb]. fold (handle_of a).
    rewrite <- app_assoc. cbn [app].
    destruct (engine_ok w _ _); reflexivity.
  - reflexivity.
Qed.






(** Without the speaker file [main] writes one line to the standard error
    stream and exits with code 1, whatever the variant: the engine is neither
    loaded nor used and no directory is created. *)
Theorem main_missing_speaker (lower : pystr -> pystr) (w : world) (a : args) (t : trace) :
  path_exists w t (speaker_wav a) = false ->
  main lower w a t = (t ++ [speaker_error_line a], Raise (SystemExit 1)).
Proof. intros H. now rewrite main_unfold, H. Qed.

Lemma main_missing_speaker_witness :
  path_exists (quiet_world false []) [] (speaker_wav (default_args Advanced)) = false
  /\ main (map ascii_lower) (quiet_world false []) (default_args Advanced) []
     = ([speaker_error_line (default_args Advanced)], Raise (SystemExit 1)).
Proof.
  split; [reflexivity|].
  exact (main_missing_speaker (map ascii_lower) (quiet_world false [])
           (default_args Advanced) [] eq_refl).
Defined.

(** When the engine cannot be loaded, [main] raises its exception right
    after the loading line: the output directory is not created and the CSV
    is not read. *)
Theorem main_engine_failure (lower : pystr -> pystr) (w : world) (a : args) (t : trace) :
  path_exists w t (speaker_wav a) = true ->
  engine_ok w (t ++ [loading_line a]) (TTS_new (handle_of a)) = false ->
  main lower w a t = (t ++ [loading_line a; TTS_new (handle_of a)], Raise EngineError).
Proof. intros H E. now rewrite main_unfold, H, E. Qed.

Lemma main_engine_failure_witness :
  path_exists broken_engine_world [] (speaker_wav (default_args Detailed)) = true
  /\ engine_ok broken_engine_world ([] ++ [loading_line (default_args Detailed)])
               (TTS_new (handle_of (default_args Detailed))) = false
  /\ main (map ascii_lower) broken_engine_world (default_args Detailed) []
     = ([loading_line (default_args Detailed); TTS_new (handle_of (default_args Detailed))],
        Raise EngineError).
Proof.
  split; [reflexivity|]. split; [reflexivity|].
  exact (main_engine_failure (map ascii_lower) broken_engine_world (default_args Detailed) []
           eq_refl eq_refl).
Defined.

Lemma main_body_unfold (lower : pystr -> pystr) (w : world) (a : args) (tts : TTS)
      (u : trace) :
  main_body lower w a tts u
  = match mkdir_error w u (outdir a) with
    | Some e => (u ++ [Mkdir (outdir a)], Raise e)
    | None =>
        let r := match variant a with
                 | Simple => run_simple w tts (speaker_wav a) (outdir a) (language a)
                 | Detailed =>
                     run_detailed lower w tts (speaker_wav a) (input_csv a) (outdir a)
                                  (language a)
                 | Advanced =>
                     if negb (truthy (parse_langs (langs a)))
                     then fun v => (v ++ [no_langs_line], Raise (SystemExit 1))
                     else run_advanced lower w tts (speaker_wav a) (input_csv a) (outdir a)
                                       (parse_langs (langs a))
                 end (u ++ [Mkdir (outdir a)]) in
        match snd r with
        | Ok _ => (fst r ++ [done_line], Ok tt)
        | Raise e => (fst r, Raise e)
        end
    end.
Proof.
  unfold main_body. rewrite bind_run. unfold ensure_dir at 1, mkdir at 1. cbn [fst snd].
  destruct (mkdir_error w u (outdir a)); [reflexivity|].
  rewrite bind_run. cbv zeta.
  destruct (variant a); reflexivity.
Qed.

(** When the output directory cannot be created (the path is an existing
    file, say), [main] ends with the exception of [mkdir], after the engine
    has been loaded: the CSV is not read and nothing is synthesized. *)
Theorem main_outdir_failure (lower : pystr -> pystr) (w : world) (a : args) (t : trace)
        (e : exn) :
  path_exists w t (speaker_wav a) = true ->
  engine_ok w (t ++ [loading_line a]) (TTS_new (handle_of a)) = true ->
  mkdir_error w (t ++ [loading_line a; TTS_new (handle_of a)]) (outdir a) = Some e ->
  main lower w a t
  = (t ++ [loading_line a; TTS_new (handle_of a); Mkdir (outdir a)], Raise e).
Proof.
  intros H E M. rewrite main_unfold, H, E, main_body_unfold, M.
  now rewrite <- app_assoc.
Qed.

Lemma main_outdir_failure_witness :
  path_exists blocked_world [] (speaker_wav (default_args Simple)) = true
  /\ mkdir_error blocked_world
       ([] ++ [loading_line (default_args Simple); TTS_new (handle_of (default_args Simple))])
       (outdir (default_args Simple)) = Some FileExistsError
  /\ main (map ascii_lower) blocked_world (default_args Simple) []
     = ([loading_line (default_args Simple); TTS_new (handle_of (default_args Simple));
         Mkdir default_outdir],
        Raise FileExistsError).
Proof.
  split; [reflexivity|]. split; [reflexivity|].
  exact (main_outdir_failure (map ascii_lower) blocked_world (default_args Simple) []
           FileExistsError eq_refl eq_refl eq_refl).
Defined.

(** In the advanced variant a language list without any code makes [main]
    exit with code 1 once the engine is loaded and the output directory
    created without an exception: the CSV is not read and nothing is
    synthesized. *)
Theorem main_no_languages (lower : pystr -> pystr) (w : world) (a : args) (t : trace) :
  variant a = Advanced ->
  parse_langs (langs a) = [] ->
  path_exists w t (speaker_wav a) = true ->
  engine_ok w (t ++ [loading_line a]) (TTS_new (handle_of a)) = true ->
  mkdir_error w (t ++ [loading_line a; TTS_new (handle_of a)]) (outdir a) = None ->
  main lower w a t
  = (t ++ [loading_line a; TTS_new (handle_of a); Mkdir (outdir a); no_langs_line],
     Raise (SystemExit 1)).
Proof.
  intros V P H E M. rewrite main_unfold, H, E, main_body_unfold, M, V, P. cbv zeta. cbn.
  now rewrite <- !app_assoc.
Qed.

Lemma main_no_languages_witness :
  variant (with_cpu true {| variant := Advanced; speaker_wav := default_speaker;
                            input_csv := default_csv; outdir := default_outdir;
                            model := DEFAULT_MODEL; language := DEFAULT_LANGUAGE;
                            langs := lit " , ,"; cpu := false |}) = Advanced
  /\ snd (main (map ascii_lower) (quiet_world true csv_id_text)
               (with_cpu true {| variant := Advanced; speaker_wav := default_speaker;
                                 input_csv := default_csv; outdir := default_outdir;
                                 model := DEFAULT_MODEL; language := DEFAULT_LANGUAGE;
                                 langs := lit " , ,"; cpu := false |}) [])
     = Raise (SystemExit 1).
Proof.
  split; [reflexivity|].
  exact (f_equal snd
           (main_no_languages (map ascii_lower) (quiet_world true csv_id_text)
              (with_cpu true {| variant := Advanced; speaker_wav := default_speaker;
                                input_csv := default_csv; outdir := default_outdir;
                                model := DEFAULT_MODEL; language := DEFAULT_LANGUAGE;
                                langs := lit " , ,"; cpu := false |}) []
              eq_refl eq_refl eq_refl eq_refl eq_refl)).
Defined.

(** In the detailed variant, and in the advanced variant with at least one
    language code, a CSV that cannot be loaded is found out only once the
    engine is loaded and the output directory created without an exception:
    [main] then raises the loader's exception, synthesizes nothing and does
    not print the final line. *)
Theorem main_load_error (lower : pystr -> pystr) (w : world) (a : args) (t : trace)
        (e : exn) :
  let ready := t ++ [loading_line a; TTS_new (handle_of a); Mkdir (outdir a)] in
  variant a = Detailed \/ (variant a = Advanced /\ parse_langs (langs a) <> []) ->
  path_exists w t (speaker_wav a) = true ->
  engine_ok w (t ++ [loading_line a]) (TTS_new (handle_of a)) = true ->
  mkdir_error w (t ++ [loading_line a; TTS_new (handle_of a)]) (outdir a) = None ->
  snd (load_csv_lines lower w (input_csv a) ready) = Raise e ->
  main lower w a t = (ready, Raise e).
Proof.
  cbv zeta. intros V H E M L. rewrite main_unfold, H, E, main_body_unfold, M.
  rewrite <- app_assoc. cbn [app].
  destruct V as [V|[V P]]; rewrite V.
  - cbv zeta.
    destruct (runners_load_error lower w (handle_of a) (speaker_wav a) (input_csv a)
                (outdir a) (language a) [] _ e L) as [R _].
    now rewrite R.
  - apply truthy_true in P. rewrite P. cbn [negb]. cbv zeta.
    destruct (runners_load_error lower w (handle_of a) (speaker_wav a) (input_csv a)
                (outdir a) (language a) (parse_langs (langs a)) _ e L) as [_ R].
    now rewrite R.
Qed.

Lemma main_load_error_witness :
  path_exists world_without_csv [] (speaker_wav (default_args Detailed)) = true
  /\ path_exists world_without_csv [] (input_csv (default_args Detailed)) = false
  /\ main (map ascii_lower) world_without_csv (default_args Detailed) []
     = ([loading_line (default_args Detailed); TTS_new (handle_of (default_args Detailed));
         Mkdir default_outdir],
        Raise (FileNotFoundError default_csv)).
Proof.
  split; [reflexivity|]. split; [reflexivity|].
  exact (main_load_error (map ascii_lower) world_without_csv (default_args Detailed) []
           (FileNotFoundError default_csv) (or_introl eq_refl) eq_refl eq_refl eq_refl
           eq_refl).
Defined.





(** ** One engine handle per run *)

Lemma TTS_eqb_eq (a b : TTS) : TTS_eqb a b = true <-> a = b.
Proof.
  unfold TTS_eqb. destruct a as [m1 p1 g1], b as [m2 p2 g2]. simpl.
  rewrite !andb_true_iff, pystr_eqb_eq, !Bool.eqb_true_iff.
  split; [intros [[-> ->] ->]; reflexivity | intros E; injection E; auto].
Qed.

Lemma TTS_eqb_refl (a : TTS) : TTS_eqb a a = true.
Proof. now apply TTS_eqb_eq. Qed.

Lemma handle_synth_to_file (w : world) (tts : TTS) (txt : pystr) (speaker out_path : path)
      (lang : option pystr) :
  emits (uses_handle tts) (synth_to_file w tts txt speaker out_path lang).
Proof.
  unfold synth_to_file. apply emits_bind; [now apply emits_mkdir|].
  intros _. destruct (match lang with Some l => truthy l | None => false end);
    apply emits_engine; apply TTS_eqb_refl.
Qed.

Lemma handle_main_body (lower : pystr -> pystr) (w : world) (a : args) (tts : TTS) :
  emits (uses_handle tts) (main_body lower w a tts).
Proof.
  unfold main_body. apply emits_bind; [now apply emits_mkdir|].
  intros _. apply emits_bind; [|intros _; now apply emits_perform].
  destruct (variant a).
  - unfold run_simple. apply emits_bind; [apply handle_synth_to_file|].
    intros _. now apply emits_perform.
  - unfold run_detailed. apply emits_bind; [apply emits_load_csv_lines|].
    intros lines. apply emits_bind; [now apply emits_mkdir|].
    intros _. apply emits_for_enumerate. intros j x.
    apply emits_bind; [apply handle_synth_to_file|].
    intros _. now apply emits_perform.
  - destruct (negb (truthy (parse_langs (langs a)))).
    + apply emits_bind; [now apply emits_perform | intros _; apply emits_raise].
    + unfold run_advanced. apply emits_bind; [apply emits_load_csv_lines|].
      intros lines. apply emits_for_enumerate. intros j x.
      apply emits_for_each. intros lang.
      apply emits_bind; [now apply emits_mkdir|].
      intros _. apply emits_bind; [apply handle_synth_to_file|].
      intros _. now apply emits_perform.
Qed.

Lemma handle_main (lower : pystr -> pystr) (w : world) (a : args) (t : trace) (c : call) :
  In c (since t (fst (main lower w a t))) -> uses_handle (handle_of a) c = true.
Proof.
  rewrite main_unfold.
  destruct (path_exists w t (speaker_wav a)).
  - destruct (engine_ok w _ _).
    + destruct (handle_main_body lower w a (handle_of a)
                  (t ++ [loading_line a; TTS_new (handle_of a)])) as [done [E F]].
      rewrite E, <- app_assoc, since_app. intros I.
      apply in_app_or in I as [[<-|[<-|[]]]|I]; try reflexivity.
      * apply TTS_eqb_refl.
      * rewrite forallb_forall in F. now apply F.
    + cbn [fst]. rewrite since_app. intros [<-|[<-|[]]]; [reflexivity | apply TTS_eqb_refl].
  - cbn [fst]. rewrite since_app. intros [<-|[]]. reflexivity.
Qed.

(** In a run of [main] every call to the engine goes to one handle, the one
    [main] creates for the requested model with [gpu=False]: the runners
    never create a handle of their own and never use another one. *)
Theorem main_single_handle (lower : pystr -> pystr) (w : world) (a : args) (t : trace) :
  let calls := since t (fst (main lower w a t)) in
  (forall h, In (TTS_new h) calls -> h = handle_of a)
  /\ (forall h txt speaker l p, In (TTS_to_file h txt speaker l p) calls ->
        h = handle_of a /\ tts_model_name h = model a /\ tts_gpu h = false).
Proof.
  cbv zeta. split.
  - intros h I. apply handle_main in I. now apply TTS_eqb_eq.
  - intros h txt speaker l p I. apply handle_main in I. apply TTS_eqb_eq in I.
    subst h. auto.
Qed.

Lemma main_single_handle_witness :
  In (TTS_to_file default_tts (lit "Hello, this is a quick voice cloning test.")
                  default_speaker (Some (lit "en"))
                  (Join default_outdir (lit "simple_demo.wav")))
     (since [] (fst (main (map ascii_lower) (quiet_world true []) (default_args Simple) [])))
  /\ default_tts = handle_of (default_args Simple).
Proof.
  assert (I : In (TTS_to_file default_tts (lit "Hello, this is a quick voice cloning test.")
                    default_speaker (Some (lit "en"))
                    (Join default_outdir (lit "simple_demo.wav")))
                 (since [] (fst (main (map ascii_lower) (quiet_world true [])
                                      (default_args Simple) []))))
    by (vm_compute; tauto).
  split; [exact I|].
  exact (proj1 (proj2 (main_single_handle (map ascii_lower) (quiet_world true [])
                         (default_args Simple) []) _ _ _ _ _ I)).
Defined.

(** ** More on the loader *)

Lemma dict_rows_blank (fieldnames : list pystr) (before after : list (list pystr)) :
  dict_rows fieldnames (before ++ [] :: after) = dict_rows fieldnames (before ++ after).
Proof. unfold dict_rows. now rewrite !filter_app. Qed.

(** A blank line among the data rows changes nothing: it gives no record and
    does not advance the position that numbers the rows. *)
Theorem load_rows_blank_line (lower : pystr -> pystr) (header : list pystr)
        (before after : list (list pystr)) :
  load_rows lower (header :: before ++ [] :: after)
  = load_rows lower (header :: before ++ after).
Proof.
  destruct header as [|first_col others]; [reflexivity|].
  unfold load_rows. now rewrite dict_rows_blank.
Qed.

Lemma row_id_not_nil (row : csv_row) (idx : N) : row_id row idx <> [].
Proof.
  unfold row_id. destruct (row_get row (lit "id")) as [v|]; [|apply str_of_N_not_nil].
  destruct (truthy v) eqn:T; [now apply truthy_true | apply str_of_N_not_nil].
Qed.

(** Every record of a successful load has a non-empty id, and there are at
    most as many records as the file has non-blank lines after the header. *)
Theorem load_rows_ids (lower : pystr -> pystr) (lines : list (list pystr))
        (rows : list record) :
  load_rows lower lines = Ok rows ->
  (forall r, In r rows -> id r <> [])
  /\ length rows <= length (filter (fun l => negb (is_blank l)) (tl lines)).
Proof.
  intros H. apply load_rows_ok in H as [header [data [key [E [K [R _]]]]]].
  subst lines rows. unfold records. split.
  - intros r I. apply in_map_iff in I as [p [<- _]]. apply row_id_not_nil.
  - rewrite length_map. etransitivity; [apply filter_length_le|].
    rewrite enumerate_length. unfold dict_rows. now rewrite length_map.
Qed.

Lemma load_rows_ids_witness :
  load_rows (map ascii_lower) csv_id_text
  = Ok [ {| id := lit "1"; text := lit "Hello" |}; {| id := lit "3"; text := lit "World" |} ]
  /\ 2 <= length (filter (fun l => negb (is_blank l)) (tl csv_id_text)).
Proof.
  assert (L : load_rows (map ascii_lower) csv_id_text
              = Ok [ {| id := lit "1"; text := lit "Hello" |};
                     {| id := lit "3"; text := lit "World" |} ]) by reflexivity.
  split; [exact L|].
  exact (proj2 (load_rows_ids (map ascii_lower) csv_id_text _ L)).
Defined.



Lemma enumerate_NoDup_fst {A} (xs : list A) (i : N) : NoDup (map fst (enumerate i xs)).
Proof.
  revert i. induction xs as [|x xs IH]; intros i; simpl; constructor; [|apply IH].
  intros H. apply in_map_iff in H as [p [E I]]. apply enumerate_fst_ge in I.
  rewrite E in I. lia.
Qed.

Lemma positions_filter_NoDup {A} (keep : N * A -> bool) (pairs : list (N * A)) :
  NoDup (map fst pairs) -> NoDup (map fst (filter keep pairs)).
Proof.
  induction pairs as [|q pairs IH]; simpl; [auto|].
  intros H. inversion H as [|? ? Hn Hd]; subst.
  destruct (keep q); simpl; [constructor|]; auto.
  intros I. apply Hn. apply in_map_iff in I as [y [E Iy]].
  apply filter_In in Iy as [Iy _]. rewrite <- E. now apply in_map.
Qed.

Lemma NoDup_map_inj {A B} (g : A -> B) (l : list A) :
  (forall x y, g x = g y -> x = y) -> NoDup l -> NoDup (map g l).
Proof.
  intros Hg. induction 1 as [|a l Hn Hd IH]; simpl; constructor; auto.
  intros I. apply in_map_iff in I as [y [E Iy]]. apply Hg in E. now subst.
Qed.

Lemma filter_enumerate_increasing {A} (keep : N * A -> bool) (xs : list A) (i : N)
      (m n : nat) (p q : N * A) :
  nth_error (filter keep (enumerate i xs)) m = Some p ->
  nth_error (filter keep (enumerate i xs)) n = Some q ->
  (m < n)%nat -> (fst p < fst q)%N.
Proof.
  revert i m n. induction xs as [|x xs IH]; intros i m n; simpl.
  - now destruct m.
  - destruct (keep (i, x)).
    + destruct m as [|m]; destruct n as [|n]; simpl; intros Hp Hq L; try lia.
      * injection Hp as <-. apply nth_error_In, filter_In in Hq as [Hq _].
        apply enumerate_fst_ge in Hq. simpl. lia.
      * apply (IH (N.succ i) m n Hp Hq). lia.
    + apply IH.
Qed.

(** Without a column named [id] the records are exactly those of the kept
    rows, each with the decimal form of the position of its own row, counted
    from 1 over all the rows the reader yields, dropped ones included and
    blank lines not; so the ids follow the rows in strictly increasing order
    and the ids of a load are pairwise distinct. *)
Theorem default_ids_distinct (lower : pystr -> pystr) (header : list pystr)
        (data : list (list pystr)) (rows : list record) :
  ~ In (lit "id") header ->
  load_rows lower (header :: data) = Ok rows ->
  (exists key,
     text_column lower header = Some key
     /\ rows = map (fun p => {| id := str_of_N (fst p);
                                text := row_text key (dict_row header (snd p)) |})
                   (kept_rows header key data)
     /\ (forall p, In p (kept_rows header key data) ->
           (1 <= fst p)%N
           /\ nth_error (filter (fun cells => negb (is_blank cells)) data)
                        (N.to_nat (fst p) - 1)
              = Some (snd p))
     /\ (forall m n p q,
           nth_error (kept_rows header key data) m = Some p ->
           nth_error (kept_rows header key data) n = Some q ->
           (m < n)%nat -> (fst p < fst q)%N))
  /\ NoDup (map id rows)
  /\ forall r, In r rows ->
       exists idx, (1 <= idx <= N.of_nat (length (dict_rows header data)))%N
                   /\ id r = str_of_N idx.
Proof.
  intros Hid H. apply load_rows_ok in H as [header' [data' [key [E [K [R _]]]]]].
  injection E as <- <-.
  assert (D : forall p, In p (enumerate 1 (dict_rows header data)) ->
                        id (row_record key p) = str_of_N (fst p)).
  { intros p I. apply enumerate_In_snd in I. unfold dict_rows in I.
    apply in_map_iff in I as [cells [C _]].
    unfold row_record. cbn [id]. rewrite <- C. unfold row_id.
    now rewrite row_get_absent. }
  split; [|split].
  - exists key. split; [exact K|]. split; [|split].
    + rewrite R, records_of_kept. apply map_ext. intros p.
      unfold row_id. now rewrite row_get_absent.
    + intros p I. apply filter_In in I as [I _]. now apply numbered_rows_position.
    + unfold kept_rows, numbered_rows. intros m n p q.
      apply filter_enumerate_increasing.
  - subst rows. unfold records. rewrite map_map.
    rewrite (map_ext_in _ (fun p => str_of_N (fst p))).
    + rewrite <- (map_map fst str_of_N). apply NoDup_map_inj; [apply str_of_N_inj|].
      apply positions_filter_NoDup, enumerate_NoDup_fst.
    + intros p I. apply filter_In in I as [I _]. now apply D.
  - subst rows. unfold records.
    intros r I. apply in_map_iff in I as [p [<- I]]. apply filter_In in I as [I _].
    exists (fst p). split; [|now apply D].
    split; [now apply enumerate_fst_ge in I|].
    apply In_nth_error in I as [n I].
    pose proof (proj1 (nth_error_Some _ n) (ltac:(rewrite I; discriminate))) as L.
    rewrite enumerate_length in L.
    apply enumerate_position in I as [-> _]. lia.
Qed.

Lemma default_ids_distinct_witness :
  ~ In (lit "id") [lit "foo"; lit "bar"]
  /\ load_rows (map ascii_lower) csv_no_id
     = Ok [ {| id := lit "1"; text := lit "x" |}; {| id := lit "3"; text := lit "z" |} ]
  /\ kept_rows [lit "foo"; lit "bar"] (lit "foo") (tl csv_no_id)
     = [ (1%N, [lit "x"; lit "one"]); (3%N, [lit "z"; lit "three"]) ]
  /\ (exists key,
        text_column (map ascii_lower) [lit "foo"; lit "bar"] = Some key
        /\ [ {| id := lit "1"; text := lit "x" |}; {| id := lit "3"; text := lit "z" |} ]
           = map (fun p => {| id := str_of_N (fst p);
                              text := row_text key
                                        (dict_row [lit "foo"; lit "bar"] (snd p)) |})
                 (kept_rows [lit "foo"; lit "bar"] key (tl csv_no_id)))
  /\ NoDup (map id [ {| id := lit "1"; text := lit "x" |};
                     {| id := lit "3"; text := lit "z" |} ]).
Proof.
  assert (A : ~ In (lit "id") [lit "foo"; lit "bar"]) by (intros [H|[H|[]]]; discriminate).
  assert (L : load_rows (map ascii_lower) ([lit "foo"; lit "bar"] :: tl csv_no_id)
              = Ok [ {| id := lit "1"; text := lit "x" |};
                     {| id := lit "3"; text := lit "z" |} ])
    by (vm_compute; reflexivity).
  destruct (default_ids_distinct (map ascii_lower) _ _ _ A L) as [[key [K [R _]]] [N _]].
  split; [exact A|]. split; [exact L|]. split; [vm_compute; reflexivity|].
  split; [|exact N].
  exists key. split; [exact K | exact R].
Defined.

(** ** The fallback and short maximum lengths *)

(** When nothing survives the cleaning the result is ["utt"] whatever the
    maximum length, also a maximum below 3; from a maximum of 3 on,
    sanitizing is idempotent. *)
Theorem sanitize_filename_fallback (name : pystr) (max_len : Z) :
  (cleaned name = [] -> sanitize_filename name max_len = lit "utt")
  /\ ((3 <= max_len)%Z ->
      sanitize_filename (sanitize_filename name max_len) max_len
      = sanitize_filename name max_len).
Proof.
  split.
  - intros H. now rewrite sanitize_filename_cleaned, H.
  - intros H. apply sanitize_filename_fixed.
    + apply truthy_true, sanitize_filename_truthy. lia.
    + apply sanitize_filename_safe.
    + pose proof (sanitize_filename_length name max_len H). lia.
Qed.

Lemma sanitize_filename_fallback_witness :
  cleaned (lit " ?? ") = []
  /\ sanitize_filename (lit " ?? ") 1 = lit "utt"
  /\ (3 <= 3)%Z
  /\ sanitize_filename (sanitize_filename (lit "a b c") 3) 3 = sanitize_filename (lit "a b c") 3.
Proof.
  assert (C : cleaned (lit " ?? ") = []) by reflexivity.
  assert (B : (3 <= 3)%Z) by lia.
  split; [exact C|].
  split; [exact (proj1 (sanitize_filename_fallback (lit " ?? ") 1) C)|].
  split; [exact B|].
  exact (proj2 (sanitize_filename_fallback (lit "a b c") 3) B).
Defined.

(** ** A call that raises *)

















(** ** The advanced runner without languages *)

Lemma for_enumerate_idle {A} (xs : list A) (i : N) (t : trace) :
  for_enumerate i xs (fun _ _ => ret tt) t = (t, Ok tt).
Proof.
  revert i. induction xs as [|x xs IH]; intros i; [reflexivity|].
  simpl. rewrite bind_run. cbn [fst snd ret]. apply IH.
Qed.

(** Called with an empty list of languages, the advanced runner still loads
    the CSV, and raises what the loader raises, but then returns without a
    single call: no directory, no synthesis, no line. *)
Theorem run_advanced_without_languages (lower : pystr -> pystr) (w : world) (tts : TTS)
        (speaker csv_path out_dir : path) (t : trace) :
  run_advanced lower w tts speaker csv_path out_dir [] t
  = (t, match snd (load_csv_lines lower w csv_path t) with
        | Ok _ => Ok tt
        | Raise e => Raise e
        end).
Proof.
  unfold run_advanced. rewrite bind_run, load_csv_lines_trace.
  destruct (snd (load_csv_lines lower w csv_path t)) as [lines|e]; [|reflexivity].
  apply (for_enumerate_idle lines).
Qed.
